(** * Virtual drive mount and cache controller

    A shallow embedding of the [VirtualDrive] settings component
    (the handlers [changeMountPoint], [onDriveLetterChange],
    [onCheckedChange], [onCacheChange], [cleanupCache], the helper
    [isVirtualDriveMounted] and the memoised [cacheSteps]) together with
    the properties the design document states about them.

    The handlers are asynchronous functions that talk to an out-of-process
    desktop service.  They are embedded in a small monad that threads the
    component state and the state of the outside world, produces the trace
    of observable events, and ends in a JavaScript completion (normal,
    [return], or a thrown error). *)

From Stdlib Require Import ZArith String Ascii List Bool Lia.
Import ListNotations.

Local Open Scope string_scope.
Local Open Scope Z_scope.
Local Open Scope list_scope.

(** ** JavaScript values used by the component *)

(** A JavaScript number holding an integer, or [NaN].  [parseInt] is the
    only producer in this component; the embedding keeps the exact
    integer (a double is exact up to 2^53) and does not distinguish [-0]. *)
Inductive jsnumber : Type :=
| JInt (z : Z)
| JNaN.

(** A thrown value.  Every value thrown or rejected here is an [Error]
    with a [message]; the handlers surface [e.message]. *)
Record Error : Type := mkError { message : string }.

(** Outcome of a promise returned by the desktop service or a dialog. *)
Inductive Promise (A : Type) : Type :=
| Resolved (a : A)
| Rejected (e : Error).
Arguments Resolved {A} a.
Arguments Rejected {A} e.

(** Completion of a block of statements. *)
Inductive Completion (A : Type) : Type :=
| Normal (a : A)
| Return
| Throw (e : Error).
Arguments Normal {A} a.
Arguments Return {A}.
Arguments Throw {A} e.

(** ** Data model *)

Record VirtualDriveConfig : Type := mkVirtualDriveConfig {
  enabled : bool;
  mountPoint : string;
  cacheSizeInGi : jsnumber
}.

(** [{ ...prev.virtualDriveConfig, enabled: b }] and its siblings. *)
Definition with_enabled (b : bool) (c : VirtualDriveConfig) : VirtualDriveConfig :=
  {| enabled := b; mountPoint := mountPoint c; cacheSizeInGi := cacheSizeInGi c |}.

Definition with_mountPoint (p : string) (c : VirtualDriveConfig) : VirtualDriveConfig :=
  {| enabled := enabled c; mountPoint := p; cacheSizeInGi := cacheSizeInGi c |}.

Definition with_cacheSizeInGi (n : jsnumber) (c : VirtualDriveConfig) : VirtualDriveConfig :=
  {| enabled := enabled c; mountPoint := mountPoint c; cacheSizeInGi := n |}.

(** Result of the directory picker. *)
Record SelectDirectoryResult : Type := mkSelectDirectoryResult {
  cancelled : bool;
  paths : list string
}.

(** What [isVirtualDriveMounted()] resolves to. *)
Record MountedResult : Type := mkMountedResult { mounted : bool }.

(** A react-query result as the component reads it. *)
Record QueryState (A : Type) : Type := mkQueryState {
  data : option A;
  isSuccess : bool
}.
Arguments mkQueryState {A} data isSuccess.
Arguments data {A} q.
Arguments isSuccess {A} q.

(** ** Observable events *)

Inductive NativeCall : Type :=
| IsVirtualDriveMounted
| IsVirtualDriveActive
| GetAvailableDrives
| VirtualDriveCacheSize
| VirtualDriveAvailableCache
| RestartVirtualDrive
| StopVirtualDrive
| VirtualDriveCleanupCache
| VerifyUnixMountPath (path : string)
| SelectDirectory (multiple : bool).

Inductive QueryKey : Type :=
| KIsVirtualDriveMounted
| KGetAvailableDrives
| KVirtualDriveCacheSize
| KVirtualDriveAvailableCache.

Inductive DialogKind : Type :=
| DisableDialog
| CleanupCacheDialog.

Inductive Event : Type :=
| Native (c : NativeCall)
| ConfirmDialog (d : DialogKind)
| ErrorToast (msg : string)
| ConsoleError (e : Error)
| SetEnabling (b : bool)
| SetDesktopConfig (written : VirtualDriveConfig)
| Refetch (k : QueryKey).

Definition Trace : Type := list Event.

Definition is_native (e : Event) : bool :=
  match e with Native _ => true | _ => false end.

Definition is_config_write (e : Event) : bool :=
  match e with SetDesktopConfig _ => true | _ => false end.

Definition is_refetch (e : Event) : bool :=
  match e with Refetch _ => true | _ => false end.

Definition is_restart (e : Event) : bool :=
  match e with Native RestartVirtualDrive => true | _ => false end.

Definition is_guard_write (e : Event) : bool :=
  match e with SetEnabling _ => true | _ => false end.

(** ** [parseInt]

    The built-in [parseInt(string)] without a radix: leading white space
    is skipped, then an optional sign, then an optional [0x]/[0X] prefix
    selecting radix 16, then the longest run of digits of the radix;
    [NaN] when that run is empty.  Strings are ASCII here.  The result
    is the integer the digits denote; JavaScript rounds it to a double,
    which is the same number for the safe integers (below [2^53] in
    magnitude) and may differ beyond them. *)

Definition is_whitespace (c : ascii) : bool :=
  match N_of_ascii c with
  | 9%N | 10%N | 11%N | 12%N | 13%N | 32%N => true
  | _ => false
  end.

Fixpoint trim_start (s : string) : string :=
  match s with
  | String c r => if is_whitespace c then trim_start r else s
  | EmptyString => s
  end.

Definition digit_value (c : ascii) : option Z :=
  let n := Z.of_N (N_of_ascii c) in
  if (48 <=? n) && (n <=? 57) then Some (n - 48)
  else if (97 <=? n) && (n <=? 122) then Some (n - 87)
  else if (65 <=? n) && (n <=? 90) then Some (n - 55)
  else None.

Fixpoint parse_digits (radix : Z) (s : string) (acc : option Z) : option Z :=
  match s with
  | String c r =>
      match digit_value c with
      | Some d =>
          if d <? radix
          then parse_digits radix r
                 (Some (match acc with Some a => a * radix + d | None => d end))
          else acc
      | None => acc
      end
  | EmptyString => acc
  end.

Definition parseInt (s : string) : jsnumber :=
  let s1 := trim_start s in
  let '(sign, s2) :=
    match s1 with
    | String "-" r => (-1, r)
    | String "+" r => (1, r)
    | _ => (1, s1)
    end in
  let '(radix, s3) :=
    match s2 with
    | String "0" (String "x" r) => (16, r)
    | String "0" (String "X" r) => (16, r)
    | _ => (10, s2)
    end in
  match parse_digits radix s3 None with
  | Some n => JInt (sign * n)
  | None => JNaN
  end.

(** [!s] for a possibly undefined string: [undefined] and the empty
    string are falsy. *)
Definition falsy (s : option string) : bool :=
  match s with
  | None => true
  | Some EmptyString => true
  | Some _ => false
  end.

(** [paths[0]!] once [paths[0]] is known to be truthy. *)
Definition non_null (s : option string) : string :=
  match s with
  | Some p => p
  | None => ""
  end.

(** ** Cache steps *)

(** Modelled from the spec: [generateCacheSteps] is imported from
    "./utils", which is not among the sources.  The design document gives
    its contract: a fixed ladder of tiers, of which those not exceeding
    the budget are offered, and [[10]] when the budget is unknown, zero or
    negative or when no rung fits.  The ladder itself is an
    implementation choice and stays a parameter. *)
Definition generateCacheSteps (ladder : list Z) (availableBudgetGiB : jsnumber) : list Z :=
  match availableBudgetGiB with
  | JNaN => [10]
  | JInt b =>
      if b <=? 0 then [10]
      else match filter (fun tier => tier <=? b) ladder with
           | [] => [10]
           | tiers => tiers
           end
  end.

(** The memoised [cacheSteps] of the component, over whichever generator
    "./utils" exports.  [Math.floor(data / (1024 * 1024 * 1024))]. *)
Definition cacheSteps (generator : jsnumber -> list Z)
    (availableCacheSizeQuery : QueryState Z) : list Z :=
  if negb (isSuccess availableCacheSizeQuery) then [10]
  else generator
         (match data availableCacheSizeQuery with
          | Some bytes => JInt (bytes / (1024 * 1024 * 1024))
          | None => JNaN
          end).

(** ** The desktop service, the dialogs and the picker

    [window.desktopAPI] and [showConfirmDialog] live outside the
    component.  Each call takes the state of the outside world to a
    settled promise and a new world. *)
Module desktopAPI.
Record t (World : Type) : Type := mk {
  platform : string;
  isVirtualDriveMounted : World -> Promise bool * World;
  isVirtualDriveActive : World -> Promise bool * World;
  getAvailableDrives : World -> Promise (list string) * World;
  virtualDriveCacheSize : World -> Promise Z * World;
  virtualDriveAvailableCache : World -> Promise Z * World;
  restartVirtualDrive : World -> Promise unit * World;
  stopVirtualDrive : World -> Promise unit * World;
  virtualDriveCleanupCache : World -> Promise unit * World;
  verifyUnixMountPath : string -> World -> Promise bool * World;
  selectDirectory : bool -> World -> Promise SelectDirectoryResult * World;
  showConfirmDialog : DialogKind -> World -> Promise bool * World
}.
Arguments platform {World} _.
Arguments isVirtualDriveMounted {World} _ _.
Arguments isVirtualDriveActive {World} _ _.
Arguments getAvailableDrives {World} _ _.
Arguments virtualDriveCacheSize {World} _ _.
Arguments virtualDriveAvailableCache {World} _ _.
Arguments restartVirtualDrive {World} _ _.
Arguments stopVirtualDrive {World} _ _.
Arguments virtualDriveCleanupCache {World} _ _.
Arguments verifyUnixMountPath {World} _ _ _.
Arguments selectDirectory {World} _ _ _.
Arguments showConfirmDialog {World} _ _ _.
End desktopAPI.

(** ** Component state *)

Section Component.

Variable World : Type.
Variable api : desktopAPI.t World.

(** Fields of the desktop configuration other than [virtualDriveConfig];
    every update spreads [...prev] over them. *)
Variable Rest : Type.

(** The translation function [t] of [useTranslation]. *)
Variable t : string -> string.

Record DesktopConfig : Type := mkDesktopConfig {
  virtualDriveConfig : VirtualDriveConfig;
  otherConfig : Rest
}.

Record State : Type := mkState {
  desktopConfig : DesktopConfig;
  enabling : bool;
  isMountedQuery : QueryState MountedResult;
  availableDrivesQuery : QueryState (list string);
  cacheSizeQuery : QueryState Z;
  availableCacheSizeQuery : QueryState Z;
  world : World
}.

Definition set_world (w : World) (s : State) : State :=
  mkState (desktopConfig s) (enabling s) (isMountedQuery s)
    (availableDrivesQuery s) (cacheSizeQuery s) (availableCacheSizeQuery s) w.

Definition set_enabling (b : bool) (s : State) : State :=
  mkState (desktopConfig s) b (isMountedQuery s)
    (availableDrivesQuery s) (cacheSizeQuery s) (availableCacheSizeQuery s) (world s).

Definition set_virtualDriveConfig (f : VirtualDriveConfig -> VirtualDriveConfig)
  (s : State) : State :=
  mkState
    (mkDesktopConfig (f (virtualDriveConfig (desktopConfig s))) (otherConfig (desktopConfig s)))
    (enabling s) (isMountedQuery s)
    (availableDrivesQuery s) (cacheSizeQuery s) (availableCacheSizeQuery s) (world s).

Definition set_isMountedQuery (q : QueryState MountedResult) (s : State) : State :=
  mkState (desktopConfig s) (enabling s) q
    (availableDrivesQuery s) (cacheSizeQuery s) (availableCacheSizeQuery s) (world s).

Definition set_availableDrivesQuery (q : QueryState (list string)) (s : State) : State :=
  mkState (desktopConfig s) (enabling s) (isMountedQuery s)
    q (cacheSizeQuery s) (availableCacheSizeQuery s) (world s).

Definition set_cacheSizeQuery (q : QueryState Z) (s : State) : State :=
  mkState (desktopConfig s) (enabling s) (isMountedQuery s)
    (availableDrivesQuery s) q (availableCacheSizeQuery s) (world s).

Definition set_availableCacheSizeQuery (q : QueryState Z) (s : State) : State :=
  mkState (desktopConfig s) (enabling s) (isMountedQuery s)
    (availableDrivesQuery s) (cacheSizeQuery s) q (world s).

(** ** The monad of handler code *)

Definition M (A : Type) : Type := State -> Completion A * State * Trace.

Definition ret {A} (a : A) : M A := fun s => (Normal a, s, []).

Definition bind {A B} (m : M A) (k : A -> M B) : M B :=
  fun s =>
    match m s with
    | (Normal a, s1, t1) =>
        match k a s1 with
        | (c, s2, t2) => (c, s2, t1 ++ t2)
        end
    | (Return, s1, t1) => (Return, s1, t1)
    | (Throw e, s1, t1) => (Throw e, s1, t1)
    end.

(** [return] inside a handler. *)
Definition return_ {A} : M A := fun s => (Return, s, []).

(** [throw new Error(msg)]. *)
Definition throw {A} (e : Error) : M A := fun s => (Throw e, s, []).

(** [if (c) { body }]. *)
Definition when (c : bool) (body : M unit) : M unit :=
  if c then body else ret tt.

(** [try { body } catch (e) { handler }]. *)
Definition try_catch {A} (body : M A) (handler : Error -> M A) : M A :=
  fun s =>
    match body s with
    | (Throw e, s1, t1) =>
        match handler e s1 with
        | (c, s2, t2) => (c, s2, t1 ++ t2)
        end
    | r => r
    end.

(** [try { body } finally { final }]: the completion of [body] stands
    unless [final] itself completes abruptly. *)
Definition try_finally {A} (body : M A) (final : M unit) : M A :=
  fun s =>
    match body s with
    | (c, s1, t1) =>
        match final s1 with
        | (Normal _, s2, t2) => (c, s2, t1 ++ t2)
        | (Return, s2, t2) => (Return, s2, t1 ++ t2)
        | (Throw e, s2, t2) => (Throw e, s2, t1 ++ t2)
        end
    end.

(** The boundary of an [async] arrow function returning [void]: a
    [return] settles the promise normally, a throw rejects it. *)
Definition async_function (body : M unit) : M unit :=
  fun s =>
    match body s with
    | (Return, s1, t1) => (Normal tt, s1, t1)
    | r => r
    end.

Definition emit (e : Event) : M unit := fun s => (Normal tt, s, [e]).

Definition getState : M State := fun s => (Normal s, s, []).

Notation "x <- m ;; k" := (bind m (fun x => k))
  (at level 100, m at next level, right associativity).
Notation "m ;; k" := (bind m (fun _ => k))
  (at level 100, right associativity).

(** ** Calls that leave the component *)

(** [await window.desktopAPI.f(...)]: the call is observable, the world
    moves on, a rejection is thrown at the [await]. *)
Definition native {A} (c : NativeCall) (f : World -> Promise A * World) : M A :=
  fun s =>
    match f (world s) with
    | (Resolved a, w) => (Normal a, set_world w s, [Native c])
    | (Rejected e, w) => (Throw e, set_world w s, [Native c])
    end.

(** [await showConfirmDialog({ title: t(...dialogs.<d>.title), ... })]. *)
Definition showConfirmDialog (d : DialogKind) : M bool :=
  fun s =>
    match desktopAPI.showConfirmDialog api d (world s) with
    | (Resolved a, w) => (Normal a, set_world w s, [ConfirmDialog d])
    | (Rejected e, w) => (Throw e, set_world w s, [ConfirmDialog d])
    end.

(** [await Promise.all([p, q])]: both calls are issued, in array order,
    before anything is awaited; the result rejects when one of them
    does.  The operands are calls, which settle or reject and never
    [return]; the last case is there for totality only. *)
Definition promise_all2 {A B} (p : M A) (q : M B) : M (A * B) :=
  fun s =>
    match p s with
    | (c1, s1, t1) =>
        match q s1 with
        | (c2, s2, t2) =>
            (match c1, c2 with
             | Normal a, Normal b => Normal (a, b)
             | Throw e, _ => Throw e
             | _, Throw e => Throw e
             | _, _ => Return
             end, s2, t1 ++ t2)
        end
    end.

(** [await Promise.all(ps)] for promises of no value. *)
Fixpoint promise_all (ps : list (M unit)) : M unit :=
  match ps with
  | [] => ret tt
  | p :: rest =>
      fun s =>
        match promise_all2 p (promise_all rest) s with
        | (Normal _, s1, t1) => (Normal tt, s1, t1)
        | (Return, s1, t1) => (Return, s1, t1)
        | (Throw e, s1, t1) => (Throw e, s1, t1)
        end
  end.

(** [c && (await m)] with a synchronous left operand. *)
Definition and_then (c : bool) (m : M bool) : M bool :=
  if c then m else ret false.

(** ** State setters *)

Definition setEnabling (b : bool) : M unit :=
  fun s => (Normal tt, set_enabling b s, [SetEnabling b]).

(** [setDesktopConfig(prev => ({ ...prev, virtualDriveConfig: f(prev.virtualDriveConfig) }))]. *)
Definition setDesktopConfig (f : VirtualDriveConfig -> VirtualDriveConfig) : M unit :=
  fun s =>
    (Normal tt, set_virtualDriveConfig f s,
     [SetDesktopConfig (f (virtualDriveConfig (desktopConfig s)))]).

Definition errorToast (msg : string) : M unit := emit (ErrorToast msg).

Definition console_error (e : Error) : M unit := emit (ConsoleError e).

(** ** [isVirtualDriveMounted] *)

Definition isVirtualDriveMounted : M MountedResult :=
  r <- promise_all2
         (native IsVirtualDriveMounted (desktopAPI.isVirtualDriveMounted api))
         (native IsVirtualDriveActive (desktopAPI.isVirtualDriveActive api)) ;;
  let '(mounted, active) := r in
  ret {| mounted := mounted && active |}.

(** ** The query layer

    [query.refetch()] runs the query function once and settles without
    throwing: a result replaces [data], a failure keeps the previous
    [data] and clears [isSuccess].  The retries react-query makes after
    a failing query function are not modelled; statements about a refresh
    whose query function fails do not fix the number of calls. *)
Definition refetch {A} (k : QueryKey) (queryFn : M A)
    (get : State -> QueryState A) (set : QueryState A -> State -> State) : M unit :=
  fun s =>
    match queryFn s with
    | (Normal a, s1, t1) =>
        (Normal tt, set (mkQueryState (Some a) true) s1, Refetch k :: t1)
    | (_, s1, t1) =>
        (Normal tt, set (mkQueryState (data (get s1)) false) s1, Refetch k :: t1)
    end.

Definition isMountedQuery_refetch : M unit :=
  refetch KIsVirtualDriveMounted isVirtualDriveMounted isMountedQuery set_isMountedQuery.

Definition availableDrivesQuery_refetch : M unit :=
  refetch KGetAvailableDrives
    (if desktopAPI.platform api =? "win32"
     then native GetAvailableDrives (desktopAPI.getAvailableDrives api)
     else ret [])%string
    availableDrivesQuery set_availableDrivesQuery.

Definition cacheSizeQuery_refetch : M unit :=
  refetch KVirtualDriveCacheSize
    (native VirtualDriveCacheSize (desktopAPI.virtualDriveCacheSize api))
    cacheSizeQuery set_cacheSizeQuery.

Definition availableCacheSizeQuery_refetch : M unit :=
  refetch KVirtualDriveAvailableCache
    (native VirtualDriveAvailableCache (desktopAPI.virtualDriveAvailableCache api))
    availableCacheSizeQuery set_availableCacheSizeQuery.

(** ** The handlers

    Each handler closes over the values of the last render; [render]
    is the state read at the call.  The [try] block of each handler is
    named so that the properties below can speak about it; the [catch]
    and [finally] blocks are the same text in all five. *)

(** [window.desktopAPI.platform() !== "win32" &&
     !(await window.desktopAPI.verifyUnixMountPath(desktopConfig.virtualDriveConfig.mountPoint))] *)
Definition mountPointInvalid (render : State) : M bool :=
  and_then (negb (desktopAPI.platform api =? "win32")%string)
    (usable <-
       native
         (VerifyUnixMountPath (mountPoint (virtualDriveConfig (desktopConfig render))))
         (desktopAPI.verifyUnixMountPath api
            (mountPoint (virtualDriveConfig (desktopConfig render)))) ;;
     ret (negb usable)).

(** [catch (e) { console.error(e); errorToast(e.message ?? e.toString());
     setDesktopConfig(prev => ... enabled: false ...) }] *)
Definition catch_block (e : Error) : M unit :=
  console_error e ;;
  errorToast (message e) ;;
  setDesktopConfig (with_enabled false).

Definition changeMountPoint_try (render : State) : M unit :=
  selectDirectoryResult <-
    native (SelectDirectory false) (desktopAPI.selectDirectory api false) ;;
  when (cancelled selectDirectoryResult
        || falsy (nth_error (paths selectDirectoryResult) 0)) return_ ;;
  invalid <- mountPointInvalid render ;;
  when invalid
    (errorToast (t "mounts.virtualDrive.errors.invalidMountPoint") ;; return_) ;;
  before <- isVirtualDriveMounted ;;
  when (mounted before)
    (native RestartVirtualDrive (desktopAPI.restartVirtualDrive api) ;;
     after <- isVirtualDriveMounted ;;
     when (negb (mounted after))
       (throw (mkError "Could not start virtual drive."))) ;;
  promise_all [isMountedQuery_refetch; availableDrivesQuery_refetch] ;;
  setDesktopConfig
    (with_mountPoint (non_null (nth_error (paths selectDirectoryResult) 0))).

Definition changeMountPoint : M unit :=
  async_function (
    render <- getState ;;
    when (enabling render) return_ ;;
    setEnabling true ;;
    try_finally
      (try_catch (changeMountPoint_try render) catch_block)
      (setEnabling false)).

Definition onDriveLetterChange_try (letter : string) (render : State) : M unit :=
  before <- isVirtualDriveMounted ;;
  when (mounted before)
    (native RestartVirtualDrive (desktopAPI.restartVirtualDrive api) ;;
     after <- isVirtualDriveMounted ;;
     when (negb (mounted after))
       (throw (mkError "Could not start virtual drive."))) ;;
  promise_all [isMountedQuery_refetch; availableDrivesQuery_refetch] ;;
  setDesktopConfig (with_mountPoint letter).

Definition onDriveLetterChange (letter : string) : M unit :=
  async_function (
    render <- getState ;;
    when (enabling render) return_ ;;
    setEnabling true ;;
    try_finally
      (try_catch (onDriveLetterChange_try letter render) catch_block)
      (setEnabling false)).

Definition onCheckedChange_try (checked : bool) (render : State) : M unit :=
  invalid <- mountPointInvalid render ;;
  when invalid
    (errorToast (t "mounts.virtualDrive.errors.invalidMountPoint") ;; return_) ;;
  (if checked
   then
     native RestartVirtualDrive (desktopAPI.restartVirtualDrive api) ;;
     after <- isVirtualDriveMounted ;;
     when (negb (mounted after))
       (throw (mkError "Could not start virtual drive."))
   else
     native StopVirtualDrive (desktopAPI.stopVirtualDrive api)) ;;
  promise_all [isMountedQuery_refetch; availableDrivesQuery_refetch] ;;
  setDesktopConfig (with_enabled checked).

Definition onCheckedChange (checked : bool) : M unit :=
  async_function (
    render <- getState ;;
    when (enabling render) return_ ;;
    declined <-
      and_then (negb checked)
        (confirmed <- showConfirmDialog DisableDialog ;; ret (negb confirmed)) ;;
    when declined return_ ;;
    setEnabling true ;;
    try_finally
      (try_catch (onCheckedChange_try checked render) catch_block)
      (setEnabling false)).

Definition onCacheChange_try (size : string) (render : State) : M unit :=
  invalid <- mountPointInvalid render ;;
  when invalid
    (errorToast (t "mounts.virtualDrive.errors.invalidMountPoint") ;; return_) ;;
  before <- isVirtualDriveMounted ;;
  when (mounted before)
    (native RestartVirtualDrive (desktopAPI.restartVirtualDrive api) ;;
     after <- isVirtualDriveMounted ;;
     when (negb (mounted after))
       (throw (mkError "Could not start virtual drive."))) ;;
  promise_all [isMountedQuery_refetch; availableDrivesQuery_refetch;
               availableCacheSizeQuery_refetch] ;;
  setDesktopConfig (with_cacheSizeInGi (parseInt size)).

Definition onCacheChange (size : string) : M unit :=
  async_function (
    render <- getState ;;
    when (enabling render) return_ ;;
    setEnabling true ;;
    try_finally
      (try_catch (onCacheChange_try size render) catch_block)
      (setEnabling false)).

Definition cleanupCache_try (render : State) : M unit :=
  native StopVirtualDrive (desktopAPI.stopVirtualDrive api) ;;
  native VirtualDriveCleanupCache (desktopAPI.virtualDriveCleanupCache api) ;;
  now <- isVirtualDriveMounted ;;
  when (mounted now)
    (native RestartVirtualDrive (desktopAPI.restartVirtualDrive api)) ;;
  promise_all [cacheSizeQuery_refetch; isMountedQuery_refetch;
               availableDrivesQuery_refetch].

Definition cleanupCache : M unit :=
  async_function (
    render <- getState ;;
    when (enabling render) return_ ;;
    confirmed <- showConfirmDialog CleanupCacheDialog ;;
    when (negb confirmed) return_ ;;
    setEnabling true ;;
    try_finally
      (try_catch (cleanupCache_try render) catch_block)
      (setEnabling false)).

(** ** The mutating transitions as one family *)

Inductive Transition : Type :=
| Toggle (checked : bool)
| ChangeMountPoint
| ChangeDriveLetter (letter : string)
| ChangeCacheSize (size : string)
| PurgeCache.

Definition transition (tr : Transition) : M unit :=
  match tr with
  | Toggle checked => onCheckedChange checked
  | ChangeMountPoint => changeMountPoint
  | ChangeDriveLetter letter => onDriveLetterChange letter
  | ChangeCacheSize size => onCacheChange size
  | PurgeCache => cleanupCache
  end.

(** The [try] block of a transition. *)
Definition try_block (tr : Transition) (render : State) : M unit :=
  match tr with
  | Toggle checked => onCheckedChange_try checked render
  | ChangeMountPoint => changeMountPoint_try render
  | ChangeDriveLetter letter => onDriveLetterChange_try letter render
  | ChangeCacheSize size => onCacheChange_try size render
  | PurgeCache => cleanupCache_try render
  end.

(** What a transition does before it takes the guard: nothing, or the
    confirmation dialog. *)
Definition confirmation (tr : Transition) : M unit :=
  match tr with
  | Toggle checked =>
      declined <-
        and_then (negb checked)
          (confirmed <- showConfirmDialog DisableDialog ;; ret (negb confirmed)) ;;
      when declined return_
  | PurgeCache =>
      confirmed <- showConfirmDialog CleanupCacheDialog ;;
      when (negb confirmed) return_
  | _ => ret tt
  end.

(** The shape all five handlers share: leave if the guard is held; ask
    for confirmation if the transition needs one; take the guard; run
    the [try] block with the shared [catch] block; release the guard.
    [transition_guarded] below shows that each handler is an instance. *)
Definition guarded (pre : M unit) (body : State -> M unit) : M unit :=
  async_function (
    render <- getState ;;
    when (enabling render) return_ ;;
    pre ;;
    setEnabling true ;;
    try_finally (try_catch (body render) catch_block) (setEnabling false)).

(** ** Predicates on handler code *)

(** [m] emits no event of kind [p]. *)
Definition quiet (p : Event -> bool) {A} (m : M A) : Prop :=
  forall s c s' tr, m s = (c, s', tr) -> filter p tr = [].

(** [m] leaves the component [proj] of the state as it found it. *)
Definition keeps {X} (proj : State -> X) {A} (m : M A) : Prop :=
  forall s c s' tr, m s = (c, s', tr) -> proj s' = proj s.

(** [m] changes the component [proj] of the state only when it runs to
    its end: after a [return] or a throw, [proj] is as it was. *)
Definition keeps_if_abrupt {X} (proj : State -> X) {A} (m : M A) : Prop :=
  forall s c s' tr, m s = (c, s', tr) -> (forall a, c <> Normal a) -> proj s' = proj s.

(** [m] always runs to its end: no [return], no throw. *)
Definition settles (m : M unit) : Prop :=
  forall s, exists s' tr, m s = (Normal tt, s', tr).

(** ** The contract the design document states for out-of-set sizes *)

(** Membership of a parsed size in a step set. *)
Definition in_step_set (steps : list Z) (n : jsnumber) : bool :=
  match n with
  | JInt z => existsb (Z.eqb z) steps
  | JNaN => false
  end.

(** "A size that is not in the step set is rejected before any native
    call is issued, and is not persisted." *)
Definition rejects_out_of_set (steps : list Z) (size : string) (s : State) : Prop :=
  in_step_set steps (parseInt size) = false ->
  forall c s' trace,
    onCacheChange size s = (c, s', trace) ->
    filter is_native trace = [] /\ desktopConfig s' = desktopConfig s.

End Component.

Arguments mkDesktopConfig {Rest} virtualDriveConfig otherConfig.
Arguments virtualDriveConfig {Rest} d.
Arguments otherConfig {Rest} d.
Arguments mkState {World Rest} desktopConfig enabling isMountedQuery
  availableDrivesQuery cacheSizeQuery availableCacheSizeQuery world.
Arguments desktopConfig {World Rest} s.
Arguments enabling {World Rest} s.
Arguments isMountedQuery {World Rest} s.
Arguments availableDrivesQuery {World Rest} s.
Arguments cacheSizeQuery {World Rest} s.
Arguments availableCacheSizeQuery {World Rest} s.
Arguments world {World Rest} s.
Arguments set_world {World Rest} w s.
Arguments set_enabling {World Rest} b s.
Arguments set_virtualDriveConfig {World Rest} f s.
Arguments set_isMountedQuery {World Rest} q s.
Arguments set_availableDrivesQuery {World Rest} q s.
Arguments set_cacheSizeQuery {World Rest} q s.
Arguments set_availableCacheSizeQuery {World Rest} q s.
Arguments ret {World Rest A} a s.
Arguments bind {World Rest A B} m k s.
Arguments return_ {World Rest A} s.
Arguments throw {World Rest A} e s.
Arguments when {World Rest} c body.
Arguments try_catch {World Rest A} body handler s.
Arguments try_finally {World Rest A} body final s.
Arguments async_function {World Rest} body s.
Arguments emit {World Rest} e s.
Arguments getState {World Rest} s.
Arguments native {World Rest A} c f s.
Arguments showConfirmDialog {World} api {Rest} d s.
Arguments promise_all2 {World Rest A B} p q s.
Arguments promise_all {World Rest} ps.
Arguments and_then {World Rest} c m.
Arguments setEnabling {World Rest} b s.
Arguments setDesktopConfig {World Rest} f s.
Arguments errorToast {World Rest} msg.
Arguments console_error {World Rest} e.
Arguments isVirtualDriveMounted {World} api {Rest}.
Arguments refetch {World Rest A} k queryFn get set s.
Arguments isMountedQuery_refetch {World} api {Rest}.
Arguments availableDrivesQuery_refetch {World} api {Rest}.
Arguments cacheSizeQuery_refetch {World} api {Rest}.
Arguments availableCacheSizeQuery_refetch {World} api {Rest}.
Arguments mountPointInvalid {World} api {Rest} render.
Arguments catch_block {World Rest} e.
Arguments changeMountPoint_try {World} api {Rest} t render.
Arguments changeMountPoint {World} api {Rest} t.
Arguments onDriveLetterChange_try {World} api {Rest} letter render.
Arguments onDriveLetterChange {World} api {Rest} letter.
Arguments onCheckedChange_try {World} api {Rest} t checked render.
Arguments onCheckedChange {World} api {Rest} t checked.
Arguments onCacheChange_try {World} api {Rest} t size render.
Arguments onCacheChange {World} api {Rest} t size.
Arguments cleanupCache_try {World} api {Rest} render.
Arguments cleanupCache {World} api {Rest}.
Arguments transition {World} api {Rest} t tr.
Arguments try_block {World} api {Rest} t tr render.
Arguments confirmation {World} api {Rest} tr.
Arguments guarded {World Rest} pre body.
Arguments quiet {World Rest} p {A} m.
Arguments keeps {World Rest X} proj {A} m.
Arguments keeps_if_abrupt {World Rest X} proj {A} m.
Arguments settles {World Rest} m.
Arguments rejects_out_of_set {World} api {Rest} t steps size s.

(** ** A simulated desktop service

    A small, well-behaved service used to run the handlers on concrete
    inputs: stopping unmounts, a restart mounts (or silently does nothing,
    or rejects, as configured), purging empties the cache, the path check
    is a fixed predicate, and the user's answers are part of the world. *)
Module Sim.

Inductive RestartBehaviour : Type :=
| BringsUp
| SilentlyFails
| Rejects (msg : string).

Record World : Type := mkWorld {
  present : bool;
  active : bool;
  usedCache : Z;
  availableCache : Z;
  userConfirms : bool;
  userPicks : SelectDirectoryResult;
  onRestart : RestartBehaviour
}.

Definition set_mount (b : bool) (w : World) : World :=
  mkWorld b b (usedCache w) (availableCache w) (userConfirms w) (userPicks w) (onRestart w).

Definition set_usedCache (n : Z) (w : World) : World :=
  mkWorld (present w) (active w) n (availableCache w) (userConfirms w) (userPicks w)
    (onRestart w).

Definition api (platform : string) (usable : string -> bool) : desktopAPI.t World :=
  {| desktopAPI.platform := platform;
     desktopAPI.isVirtualDriveMounted := fun w => (Resolved (present w), w);
     desktopAPI.isVirtualDriveActive := fun w => (Resolved (active w), w);
     desktopAPI.getAvailableDrives := fun w => (Resolved ["X:"; "Y:"; "Z:"], w);
     desktopAPI.virtualDriveCacheSize := fun w => (Resolved (usedCache w), w);
     desktopAPI.virtualDriveAvailableCache := fun w => (Resolved (availableCache w), w);
     desktopAPI.restartVirtualDrive := fun w =>
       match onRestart w with
       | BringsUp => (Resolved tt, set_mount true w)
       | SilentlyFails => (Resolved tt, set_mount false w)
       | Rejects msg => (Rejected (mkError msg), set_mount false w)
       end;
     desktopAPI.stopVirtualDrive := fun w => (Resolved tt, set_mount false w);
     desktopAPI.virtualDriveCleanupCache := fun w => (Resolved tt, set_usedCache 0 w);
     desktopAPI.verifyUnixMountPath := fun path w => (Resolved (usable path), w);
     desktopAPI.selectDirectory := fun _ w => (Resolved (userPicks w), w);
     desktopAPI.showConfirmDialog := fun _ w => (Resolved (userConfirms w), w) |}.

(** The translation function: keys stand for their texts. *)
Definition t (key : string) : string := key.

Definition GiB : Z := 1024 * 1024 * 1024.

(** A component that has rendered once against the world [w]. *)
Definition rendered (cfg : VirtualDriveConfig) (w : World) : State World unit :=
  {| desktopConfig := mkDesktopConfig cfg tt;
     enabling := false;
     isMountedQuery := mkQueryState (Some (mkMountedResult (present w && active w))) true;
     availableDrivesQuery := mkQueryState (Some []) true;
     cacheSizeQuery := mkQueryState (Some (usedCache w)) true;
     availableCacheSizeQuery := mkQueryState (Some (availableCache w)) true;
     world := w |}.

Definition linux : desktopAPI.t World :=
  api "linux" (fun path => (path =? "/mnt/filen")%string).

Definition win32 : desktopAPI.t World :=
  api "win32" (fun _ => false).

Definition config (on : bool) (mp : string) : VirtualDriveConfig :=
  {| enabled := on; mountPoint := mp; cacheSizeInGi := JInt 10 |}.

(** A drive that is up, 3 GiB of cache used out of 25 GiB, a user who
    confirms and picks [picked]. *)
Definition mountedWorld (picked : SelectDirectoryResult) (r : RestartBehaviour) : World :=
  mkWorld true true (3 * GiB) (25 * GiB) true picked r.

(** The same with the drive down. *)
Definition unmountedWorld (picked : SelectDirectoryResult) (r : RestartBehaviour) : World :=
  mkWorld false false (3 * GiB) (25 * GiB) true picked r.

Definition nothingPicked : SelectDirectoryResult := mkSelectDirectoryResult true [].

(** The ladder of tiers used when a concrete step set is needed. *)
Definition ladder : list Z := [10; 50; 100; 250; 500; 1000].

(** Scenarios. *)

(** Enabled and mounted on drive [X:]. *)
Definition up : State World unit :=
  rendered (config true "X:") (mountedWorld nothingPicked BringsUp).

(** Enabled and mounted on drive [X:], but the component last saw the
    drive down: the mount came up after the last refresh, so the
    controls that a mounted drive disables are still live. *)
Definition up_unseen : State World unit :=
  set_world (mountedWorld nothingPicked BringsUp)
    (rendered (config true "X:") (unmountedWorld nothingPicked BringsUp)).

(** Disabled and not mounted; a restart would bring the drive up. *)
Definition down : State World unit :=
  rendered (config false "X:") (unmountedWorld nothingPicked BringsUp).

(** Not mounted; a restart reports success and mounts nothing. *)
Definition stuck : State World unit :=
  rendered (config true "X:") (unmountedWorld nothingPicked SilentlyFails).

(** Not mounted; a restart is rejected by the service. *)
Definition broken : State World unit :=
  rendered (config true "X:") (unmountedWorld nothingPicked (Rejects "Mount failed.")).

(** Enabled and mounted; the user declines every dialog. *)
Definition declining : State World unit :=
  rendered (config true "X:")
    (mkWorld true true (3 * GiB) (25 * GiB) false nothingPicked BringsUp).

(** Not mounted, configured for [mp]; the user picks [path]. *)
Definition picking (mp path : string) : State World unit :=
  rendered (config false mp)
    (unmountedWorld (mkSelectDirectoryResult false [path]) BringsUp).

(** The step set the component offers in the scenarios: 25 GiB of
    budget on the ladder above. *)
Definition steps : list Z :=
  cacheSteps (generateCacheSteps ladder) (availableCacheSizeQuery down).

End Sim.

(** * The rest of the component *)

(** ** What the select controls hand to the handlers *)

(** [n.toString()] for a safe integer [n]: a minus sign for a negative
    number, then the decimal digits without leading zeros.  From 10^21
    on JavaScript prints an exponent instead; the definition is meant for
    the safe integers only ([safe_integer] below), and the statements
    about it are restricted to them. *)

Definition digit_char (d : Z) : ascii := ascii_of_N (Z.to_N (48 + d)).

Fixpoint to_digits (fuel : nat) (n : Z) (acc : string) : string :=
  match fuel with
  | O => acc
  | S fuel' =>
      if n =? 0 then acc
      else to_digits fuel' (n / 10) (String (digit_char (n mod 10)) acc)
  end.

Definition toString (n : Z) : string :=
  if n =? 0 then "0"
  else if n <? 0 then String "-" (to_digits (S (Z.to_nat (Z.log2 (- n)))) (- n) "")
  else to_digits (S (Z.to_nat (Z.log2 n))) n "".

(** [Number.isSafeInteger(n)]: the integers a double holds exactly.  On
    them [toString] prints plain decimal digits and [parseInt] is exact. *)
Definition safe_integer (n : Z) : Prop := - 2 ^ 53 < n < 2 ^ 53.

(** The [value]s of the [SelectItem]s of the cache size control:
    [cacheSteps.map(size => size.toString())]. *)
Definition cacheSelectValues (steps : list Z) : list string := map toString steps.

(** ** More kinds of events *)

Definition is_verify (e : Event) : bool :=
  match e with Native (VerifyUnixMountPath _) => true | _ => false end.

Definition is_enumerate (e : Event) : bool :=
  match e with Native GetAvailableDrives => true | _ => false end.

(** Transitions that open with a confirmation dialog. *)
Definition needs_confirmation (tr : Transition) : bool :=
  match tr with
  | Toggle checked => negb checked
  | PurgeCache => true
  | _ => false
  end.

(** Transitions whose [try] block opens with the mount point check. *)
Definition validates_first (tr : Transition) : bool :=
  match tr with
  | Toggle _ => true
  | ChangeCacheSize _ => true
  | _ => false
  end.

(** The configuration a transition writes when its [try] block runs to
    the end, from the configuration [cfg] it finds. *)
Definition intended (tr : Transition) (cfg v : VirtualDriveConfig) : Prop :=
  match tr with
  | Toggle checked => v = with_enabled checked cfg
  | ChangeMountPoint => exists path, v = with_mountPoint path cfg
  | ChangeDriveLetter letter => v = with_mountPoint letter cfg
  | ChangeCacheSize size => v = with_cacheSizeInGi (parseInt size) cfg
  | PurgeCache => False
  end.

(** [m] writes the configuration at most once, as its very last event
    and only when it runs to its end; the written value is related to the
    configuration it found by [R], and nothing else of the desktop
    configuration changes. *)
Definition config_discipline {World Rest A : Type}
    (R : VirtualDriveConfig -> VirtualDriveConfig -> Prop) (m : M World Rest A) : Prop :=
  forall s c s' trace,
    m s = (c, s', trace) ->
    (filter is_config_write trace = [] /\ desktopConfig s' = desktopConfig s)
    \/ ((exists a, c = Normal a)
        /\ exists pre v,
             trace = pre ++ [SetDesktopConfig v]
             /\ filter is_config_write pre = []
             /\ desktopConfig s' = mkDesktopConfig v (otherConfig (desktopConfig s))
             /\ R (virtualDriveConfig (desktopConfig s)) v).

Section Surroundings.

Context {World Rest : Type}.
Variable api : desktopAPI.t World.

(** ** [availableDrives]

    The memoised list behind the drive letter control.  [None] stands for
    the [TypeError] of [undefined.filter] on a successful query without
    data, which react-query does not produce. *)
Definition availableDrives (s : State World Rest) : option (list string) :=
  if negb (isSuccess (availableDrivesQuery s))
     || negb (desktopAPI.platform api =? "win32")%string
  then Some []
  else
    match data (availableDrivesQuery s) with
    | Some letters =>
        Some (filter
                (fun letter =>
                   negb (letter =? mountPoint (virtualDriveConfig (desktopConfig s)))%string)
                letters
              ++ [mountPoint (virtualDriveConfig (desktopConfig s))])
    | None => None
    end.

(** ** [browse]

    [window.desktopAPI.openLocalPath] is not among the calls of the
    transitions; it is a parameter here and has an event of its own. *)
Inductive BrowseEvent : Type :=
| Core (e : Event)
| OpenLocalPath (path : string).

Definition browse (openLocalPath : string -> World -> Promise unit * World)
    (s : State World Rest) : Completion unit * State World Rest * list BrowseEvent :=
  if negb (enabled (virtualDriveConfig (desktopConfig s))) then (Normal tt, s, [])
  else
    match isVirtualDriveMounted api s with
    | (Normal probe, s1, t1) =>
        if negb (mounted probe) then (Normal tt, s1, map Core t1)
        else
          let path := (mountPoint (virtualDriveConfig (desktopConfig s)) ++ "\")%string in
          match openLocalPath path (world s1) with
          | (Resolved _, w) =>
              (Normal tt, set_world w s1, map Core t1 ++ [OpenLocalPath path])
          | (Rejected e, w) =>
              (Normal tt, set_world w s1,
               map Core t1 ++
                 [OpenLocalPath path; Core (ConsoleError e); Core (ErrorToast (message e))])
          end
    | (Throw e, s1, t1) =>
        (Normal tt, s1,
         map Core t1 ++ [Core (ConsoleError e); Core (ErrorToast (message e))])
    | (Return, s1, t1) => (Normal tt, s1, map Core t1)
    end.

(** ** The [refetchVirtualDrive] listener

    [isMountedQuery.refetch().catch(console.error)] *)
Definition onRefetchVirtualDrive : M World Rest unit :=
  try_catch (isMountedQuery_refetch api) (fun e => console_error e).

End Surroundings.

(** ** The desktop update dialog

    The second component of the file: a dialog that opens when the main
    process reports a downloaded update, and that the user dismisses or
    turns into an installation. *)
Module DesktopUpdateDialog.

(** [Record<string, boolean>]: a key is absent or holds a boolean. *)
Definition Versions : Type := string -> option bool.

Record State : Type := mkState {
  open : bool;
  isUpdating : bool;
  version : string;
  desktopUpdateDialogDismissedVersions : Versions
}.

(** The [useState] initial values. *)
Definition initial : State := mkState false false "1" (fun _ => None).

(** [{ ...prev, [version]: true }] *)
Definition mark (v : string) (prev : Versions) : Versions :=
  fun key => if (key =? v)%string then Some true else prev key.

(** Truthiness of [desktopUpdateDialogDismissedVersions[v]]. *)
Definition dismissed (st : State) (v : string) : bool :=
  match desktopUpdateDialogDismissedVersions st v with
  | Some true => true
  | _ => false
  end.

Definition dismiss (st : State) : State :=
  if isUpdating st then st
  else
    mkState false (isUpdating st) (version st)
      (mark (version st) (desktopUpdateDialogDismissedVersions st)).

Inductive Event : Type :=
| InstallUpdate
| ConsoleError (e : Error)
| ErrorToast (msg : string).

Definition update {World : Type} (installUpdate : World -> Promise unit * World)
    (st : State) (w : World) : State * World * list Event :=
  let st' :=
    mkState true true (version st)
      (mark (version st) (desktopUpdateDialogDismissedVersions st)) in
  match installUpdate w with
  | (Resolved _, w') => (st', w', [InstallUpdate])
  | (Rejected e, w') => (st', w', [InstallUpdate; ConsoleError e; ErrorToast (message e)])
  end.

Definition onUpdateDownloaded (v : string) (st : State) : State :=
  if dismissed st v then st
  else mkState true (isUpdating st) v (desktopUpdateDialogDismissedVersions st).

(** A message of the main process, as far as the listener reads it:
    [message.type], [message.data.type], [message.data.info.version]. *)
Record Message : Type := mkMessage {
  type : string;
  dataType : string;
  infoVersion : string
}.

(** The listener registered on [window.desktopAPI.onMainToWindowMessage]. *)
Definition onMainToWindowMessage (m : Message) (st : State) : State :=
  if (type m =? "updater")%string && (dataType m =? "updateDownloaded")%string
  then onUpdateDownloaded (infoVersion m) st
  else st.

(** What can happen to the dialog, and runs of such happenings. *)
Inductive Op : Type :=
| Dismiss
| Update
| Receive (m : Message).

Definition step {World : Type} (installUpdate : World -> Promise unit * World)
    (op : Op) (st : State) (w : World) : State * World * list Event :=
  match op with
  | Dismiss => (dismiss st, w, [])
  | Update => update installUpdate st w
  | Receive m => (onMainToWindowMessage m st, w, [])
  end.

Fixpoint run {World : Type} (installUpdate : World -> Promise unit * World)
    (ops : list Op) (st : State) (w : World) : State * World * list Event :=
  match ops with
  | [] => (st, w, [])
  | op :: rest =>
      match step installUpdate op st w with
      | (st1, w1, t1) =>
          match run installUpdate rest st1 w1 with
          | (st2, w2, t2) => (st2, w2, t1 ++ t2)
          end
      end
  end.

End DesktopUpdateDialog.

(** * Handlers that overlap

    A handler gives up control at every [await]: between its entry and
    its return other handlers can be entered and resumed.  This part
    embeds the handlers a second time with their [await]s as points of
    suspension, so that runs in which a second request arrives during a
    first can be stated.  Code between two [await]s runs without
    interruption; an awaited call takes its effect on the outside world
    when the handler is resumed with its outcome; a call of
    [isVirtualDriveMounted] or of [Promise.all] is one such point.  The
    component has rendered between two stretches, so that a handler
    that is entered tests the flag as it was last written.  Run without
    interruption, a handler of this part does what its counterpart above
    does ([transition_R_sequential]). *)

Section Overlap.

Variable World : Type.
Variable api : desktopAPI.t World.
Variable Rest : Type.
Variable t : string -> string.

Local Abbreviation State := (State World Rest).
Local Abbreviation M := (M World Rest).

(** What running a piece of handler code gives: it completed, or it is
    suspended at an [await], to be resumed in the state of that later
    moment.  [s] and [tr] are the state and the events of the
    uninterrupted stretch just run. *)
Inductive Res (A : Type) : Type :=
| Now (c : Completion A) (s : State) (tr : Trace)
| Later (s : State) (tr : Trace) (resume : State -> Res A).
Arguments Now {A} c s tr.
Arguments Later {A} s tr resume.

Definition R (A : Type) : Type := State -> Res A.

(** Events emitted before [r] in the same uninterrupted stretch. *)
Definition prepend {A} (t0 : Trace) (r : Res A) : Res A :=
  match r with
  | Now c s tr => Now c s (t0 ++ tr)
  | Later s tr resume => Later s (t0 ++ tr) resume
  end.

(** Synchronous code. *)
Definition lift {A} (m : M A) : R A :=
  fun s => match m s with (c, s1, t1) => Now c s1 t1 end.

(** [await m]: suspend; on resumption the awaited call settles. *)
Definition await {A} (m : M A) : R A :=
  fun s => Later s [] (fun s' => lift m s').

Fixpoint bind_res {A B} (r : Res A) (k : A -> R B) : Res B :=
  match r with
  | Now (Normal a) s tr => prepend tr (k a s)
  | Now Return s tr => Now Return s tr
  | Now (Throw e) s tr => Now (Throw e) s tr
  | Later s tr resume => Later s tr (fun s' => bind_res (resume s') k)
  end.

Definition bindR {A B} (m : R A) (k : A -> R B) : R B :=
  fun s => bind_res (m s) k.

Definition whenR (c : bool) (body : R unit) : R unit :=
  if c then body else lift (ret tt).

Definition and_thenR (c : bool) (m : R bool) : R bool :=
  if c then m else lift (ret false).

Fixpoint try_catch_res {A} (r : Res A) (handler : Error -> R A) : Res A :=
  match r with
  | Now (Throw e) s tr => prepend tr (handler e s)
  | Now c s tr => Now c s tr
  | Later s tr resume => Later s tr (fun s' => try_catch_res (resume s') handler)
  end.

Definition try_catchR {A} (body : R A) (handler : Error -> R A) : R A :=
  fun s => try_catch_res (body s) handler.

(** The completion of a [try] block after its [finally] block [f] ran. *)
Fixpoint after_finally {A} (c : Completion A) (f : Res unit) : Res A :=
  match f with
  | Now (Normal _) s tr => Now c s tr
  | Now Return s tr => Now Return s tr
  | Now (Throw e) s tr => Now (Throw e) s tr
  | Later s tr resume => Later s tr (fun s' => after_finally c (resume s'))
  end.

Fixpoint try_finally_res {A} (r : Res A) (final : R unit) : Res A :=
  match r with
  | Now c s tr => prepend tr (after_finally c (final s))
  | Later s tr resume => Later s tr (fun s' => try_finally_res (resume s') final)
  end.

Definition try_finallyR {A} (body : R A) (final : R unit) : R A :=
  fun s => try_finally_res (body s) final.

Fixpoint async_function_res (r : Res unit) : Res unit :=
  match r with
  | Now Return s tr => Now (Normal tt) s tr
  | Now c s tr => Now c s tr
  | Later s tr resume => Later s tr (fun s' => async_function_res (resume s'))
  end.

Definition async_functionR (body : R unit) : R unit :=
  fun s => async_function_res (body s).

Notation "x <- m ;; k" := (bindR m (fun x => k))
  (at level 100, m at next level, right associativity).
Notation "m ;; k" := (bindR m (fun _ => k))
  (at level 100, right associativity).

(** ** The handlers, with their [await]s *)

Definition mountPointInvalid_R (render : State) : R bool :=
  and_thenR (negb (desktopAPI.platform api =? "win32")%string)
    (usable <-
       await
         (native
            (VerifyUnixMountPath (mountPoint (virtualDriveConfig (desktopConfig render))))
            (desktopAPI.verifyUnixMountPath api
               (mountPoint (virtualDriveConfig (desktopConfig render))))) ;;
     lift (ret (negb usable))).

Definition changeMountPoint_try_R (render : State) : R unit :=
  selectDirectoryResult <-
    await (native (SelectDirectory false) (desktopAPI.selectDirectory api false)) ;;
  whenR (cancelled selectDirectoryResult
         || falsy (nth_error (paths selectDirectoryResult) 0)) (lift return_) ;;
  invalid <- mountPointInvalid_R render ;;
  whenR invalid
    (lift (bind (errorToast (t "mounts.virtualDrive.errors.invalidMountPoint"))
             (fun _ => return_))) ;;
  before <- await (isVirtualDriveMounted api) ;;
  whenR (mounted before)
    (await (native RestartVirtualDrive (desktopAPI.restartVirtualDrive api)) ;;
     after <- await (isVirtualDriveMounted api) ;;
     whenR (negb (mounted after))
       (lift (throw (mkError "Could not start virtual drive.")))) ;;
  await (promise_all [isMountedQuery_refetch api; availableDrivesQuery_refetch api]) ;;
  lift (setDesktopConfig
          (with_mountPoint (non_null (nth_error (paths selectDirectoryResult) 0)))).

Definition onDriveLetterChange_try_R (letter : string) (render : State) : R unit :=
  before <- await (isVirtualDriveMounted api) ;;
  whenR (mounted before)
    (await (native RestartVirtualDrive (desktopAPI.restartVirtualDrive api)) ;;
     after <- await (isVirtualDriveMounted api) ;;
     whenR (negb (mounted after))
       (lift (throw (mkError "Could not start virtual drive.")))) ;;
  await (promise_all [isMountedQuery_refetch api; availableDrivesQuery_refetch api]) ;;
  lift (setDesktopConfig (with_mountPoint letter)).

Definition onCheckedChange_try_R (checked : bool) (render : State) : R unit :=
  invalid <- mountPointInvalid_R render ;;
  whenR invalid
    (lift (bind (errorToast (t "mounts.virtualDrive.errors.invalidMountPoint"))
             (fun _ => return_))) ;;
  (if checked
   then
     await (native RestartVirtualDrive (desktopAPI.restartVirtualDrive api)) ;;
     after <- await (isVirtualDriveMounted api) ;;
     whenR (negb (mounted after))
       (lift (throw (mkError "Could not start virtual drive.")))
   else
     await (native StopVirtualDrive (desktopAPI.stopVirtualDrive api))) ;;
  await (promise_all [isMountedQuery_refetch api; availableDrivesQuery_refetch api]) ;;
  lift (setDesktopConfig (with_enabled checked)).

Definition onCacheChange_try_R (size : string) (render : State) : R unit :=
  invalid <- mountPointInvalid_R render ;;
  whenR invalid
    (lift (bind (errorToast (t "mounts.virtualDrive.errors.invalidMountPoint"))
             (fun _ => return_))) ;;
  before <- await (isVirtualDriveMounted api) ;;
  whenR (mounted before)
    (await (native RestartVirtualDrive (desktopAPI.restartVirtualDrive api)) ;;
     after <- await (isVirtualDriveMounted api) ;;
     whenR (negb (mounted after))
       (lift (throw (mkError "Could not start virtual drive.")))) ;;
  await (promise_all [isMountedQuery_refetch api; availableDrivesQuery_refetch api;
                      availableCacheSizeQuery_refetch api]) ;;
  lift (setDesktopConfig (with_cacheSizeInGi (parseInt size))).

Definition cleanupCache_try_R (render : State) : R unit :=
  await (native StopVirtualDrive (desktopAPI.stopVirtualDrive api)) ;;
  await (native VirtualDriveCleanupCache (desktopAPI.virtualDriveCleanupCache api)) ;;
  now <- await (isVirtualDriveMounted api) ;;
  whenR (mounted now)
    (await (native RestartVirtualDrive (desktopAPI.restartVirtualDrive api))) ;;
  await (promise_all [cacheSizeQuery_refetch api; isMountedQuery_refetch api;
                      availableDrivesQuery_refetch api]).

Definition try_block_R (tr : Transition) (render : State) : R unit :=
  match tr with
  | Toggle checked => onCheckedChange_try_R checked render
  | ChangeMountPoint => changeMountPoint_try_R render
  | ChangeDriveLetter letter => onDriveLetterChange_try_R letter render
  | ChangeCacheSize size => onCacheChange_try_R size render
  | PurgeCache => cleanupCache_try_R render
  end.

(** What precedes [setEnabling(true)]: for disabling and purging, the
    awaited confirmation dialog. *)
Definition confirmation_R (tr : Transition) : R unit :=
  match tr with
  | Toggle checked =>
      declined <-
        and_thenR (negb checked)
          (confirmed <- await (showConfirmDialog api DisableDialog) ;;
           lift (ret (negb confirmed))) ;;
      whenR declined (lift return_)
  | PurgeCache =>
      confirmed <- await (showConfirmDialog api CleanupCacheDialog) ;;
      whenR (negb confirmed) (lift return_)
  | _ => lift (ret tt)
  end.

(** A handler: the flag is tested at entry, set after the confirmation,
    cleared in the [finally] block. *)
Definition transition_R (tr : Transition) : R unit :=
  async_functionR (
    render <- lift getState ;;
    whenR (enabling render) (lift return_) ;;
    confirmation_R tr ;;
    lift (setEnabling true) ;;
    try_finallyR
      (try_catchR (try_block_R tr render) (fun e => lift (catch_block e)))
      (lift (setEnabling false))).

(** Running to the end without interruption. *)
Fixpoint complete {A} (r : Res A) : Completion A * State * Trace :=
  match r with
  | Now c s tr => (c, s, tr)
  | Later s tr resume =>
      match complete (resume s) with
      | (c, s', tr') => (c, s', tr ++ tr')
      end
  end.

(** ** Schedules *)

(** A handler that was entered and has not returned: the events it has
    emitted so far and what is left of it. *)
Record Suspended : Type := mkSuspended {
  own : Trace;
  continuation : State -> Res unit
}.

Definition Pool : Type := list Suspended.

Inductive Action : Type :=
| Start (tr : Transition)
| Resume (i : nat).

(** The pool after a stretch of the handler in slot [before ++ _ :: after]. *)
Definition settle (emitted : Trace) (r : Res unit) (before after : Pool)
    : Pool * State * Trace :=
  match r with
  | Now _ s tr => (before ++ after, s, tr)
  | Later s tr resume => (before ++ mkSuspended (emitted ++ tr) resume :: after, s, tr)
  end.

Definition act (a : Action) (pool : Pool) (s : State) : Pool * State * Trace :=
  match a with
  | Start tr => settle [] (transition_R tr s) pool []
  | Resume i =>
      match nth_error pool i with
      | Some task =>
          settle (own task) (continuation task s) (firstn i pool) (skipn (S i) pool)
      | None => (pool, s, [])
      end
  end.

Fixpoint run_schedule (acts : list Action) (pool : Pool) (s : State)
    : Pool * State * Trace :=
  match acts with
  | [] => (pool, s, [])
  | a :: rest =>
      match act a pool s with
      | (pool1, s1, t1) =>
          match run_schedule rest pool1 s1 with
          | (pool2, s2, t2) => (pool2, s2, t1 ++ t2)
          end
      end
  end.

(** The last write of the guard in a handler's own events is
    [setEnabling(true)]: it has taken the guard and not released it. *)
Definition holds_guard (emitted : Trace) : bool :=
  match rev (filter is_guard_write emitted) with
  | SetEnabling true :: _ => true
  | _ => false
  end.

Definition is_acquire (e : Event) : bool :=
  match e with SetEnabling true => true | _ => false end.

(** "If a configuration-changing operation is already in flight the
    entry point returns immediately with no observable effect", for a
    reading [in_flight] of which entered handlers count as in flight:
    after the schedule [acts], if the pool has a handler in flight,
    entering [tr] emits nothing, changes nothing and leaves no handler
    behind. *)
Definition drops_entry_while_in_flight (in_flight : Suspended -> bool)
    (acts : list Action) (tr : Transition) (s0 : State) : Prop :=
  forall pool s trace,
    run_schedule acts [] s0 = (pool, s, trace) ->
    existsb in_flight pool = true ->
    match act (Start tr) pool s with
    | (pool', s', emitted) =>
        emitted = [] /\ s' = s /\ length pool' = length pool
    end.

(** Schedules that enter only transitions without a confirmation dialog. *)
Definition enters_without_dialog (a : Action) : bool :=
  match a with
  | Start tr => negb (needs_confirmation tr)
  | Resume _ => true
  end.

(** ** Predicates on suspended code *)

(** However a handler is resumed: if it has taken the guard, it returns
    with the guard free and its release as its last event.  [acquired]
    says whether it took the guard in an earlier stretch. *)
Fixpoint releases_if_acquired (acquired : bool) (r : Res unit) : Prop :=
  match r with
  | Now _ s tr =>
      acquired || existsb is_acquire tr = true ->
      enabling s = false /\ exists pre, tr = pre ++ [SetEnabling false]
  | Later _ tr resume =>
      forall s', releases_if_acquired (acquired || existsb is_acquire tr) (resume s')
  end.

(** Code that, run and resumed with the guard held, leaves it held and
    does not write it. *)
Fixpoint calm {A} (r : Res A) : Prop :=
  match r with
  | Now _ s tr => enabling s = true /\ filter is_guard_write tr = []
  | Later s tr resume =>
      enabling s = true /\ filter is_guard_write tr = []
      /\ forall s', enabling s' = true -> calm (resume s')
  end.

(** A handler inside its guarded part: resumed with the guard held, it
    keeps it held while suspended and returns with it free. *)
Fixpoint releasing (r : Res unit) : Prop :=
  match r with
  | Now _ s tr => enabling s = false /\ filter is_guard_write tr = [SetEnabling false]
  | Later s tr resume =>
      enabling s = true /\ filter is_guard_write tr = []
      /\ forall s', enabling s' = true -> releasing (resume s')
  end.

(** The same for a whole piece of code. *)
Definition calmR {A} (m : R A) : Prop :=
  forall s, enabling s = true -> calm (m s).

(** The first stretch of a handler that takes the guard: suspended, it
    holds the guard and is inside its guarded part. *)
Definition acquiring (r : Res unit) : Prop :=
  match r with
  | Now _ s _ => enabling s = false
  | Later s tr resume =>
      enabling s = true /\ filter is_guard_write tr = [SetEnabling true]
      /\ forall s', enabling s' = true -> releasing (resume s')
  end.

(** However resumed, the code returns with the guard free and its
    release as its last event. *)
Fixpoint released (r : Res unit) : Prop :=
  match r with
  | Now _ s tr => enabling s = false /\ exists pre, tr = pre ++ [SetEnabling false]
  | Later _ _ resume => forall s', released (resume s')
  end.

(** However resumed, the code does not take the guard. *)
Fixpoint no_acquire {A} (r : Res A) : Prop :=
  match r with
  | Now _ _ tr => existsb is_acquire tr = false
  | Later _ tr resume =>
      existsb is_acquire tr = false /\ forall s', no_acquire (resume s')
  end.

(** At most one handler is in flight; it holds the guard exactly when
    there is one. *)
Definition single_flight (pool : Pool) (s : State) : Prop :=
  (pool = [] /\ enabling s = false)
  \/ (exists task,
        pool = [task] /\ enabling s = true
        /\ filter is_guard_write (own task) = [SetEnabling true]
        /\ forall s', enabling s' = true -> releasing (continuation task s')).

(** [r], run without interruption, is [m]. *)
Definition sequential_of {A} (r : R A) (m : M A) : Prop :=
  forall s, complete (r s) = m s.

End Overlap.

Arguments Now {World Rest A} c s tr.
Arguments Later {World Rest A} s tr resume.
Arguments prepend {World Rest A} t0 r.
Arguments lift {World Rest A} m s.
Arguments await {World Rest A} m s.
Arguments bind_res {World Rest A B} r k.
Arguments bindR {World Rest A B} m k s.
Arguments whenR {World Rest} c body.
Arguments and_thenR {World Rest} c m.
Arguments try_catch_res {World Rest A} r handler.
Arguments try_catchR {World Rest A} body handler s.
Arguments after_finally {World Rest A} c f.
Arguments try_finally_res {World Rest A} r final.
Arguments try_finallyR {World Rest A} body final s.
Arguments async_function_res {World Rest} r.
Arguments async_functionR {World Rest} body s.
Arguments mountPointInvalid_R {World} api {Rest} render.
Arguments changeMountPoint_try_R {World} api {Rest} t render.
Arguments onDriveLetterChange_try_R {World} api {Rest} letter render.
Arguments onCheckedChange_try_R {World} api {Rest} t checked render.
Arguments onCacheChange_try_R {World} api {Rest} t size render.
Arguments cleanupCache_try_R {World} api {Rest} render.
Arguments try_block_R {World} api {Rest} t tr render.
Arguments confirmation_R {World} api {Rest} tr.
Arguments transition_R {World} api {Rest} t tr.
Arguments complete {World Rest A} r.
Arguments mkSuspended {World Rest} own continuation.
Arguments own {World Rest} s.
Arguments continuation {World Rest} s.
Arguments settle {World Rest} emitted r before after.
Arguments act {World} api {Rest} t a pool s.
Arguments run_schedule {World} api {Rest} t acts pool s.
Arguments drops_entry_while_in_flight {World} api {Rest} t in_flight acts tr s0.
Arguments releases_if_acquired {World Rest} acquired r.
Arguments calm {World Rest A} r.
Arguments releasing {World Rest} r.
Arguments calmR {World Rest A} m.
Arguments acquiring {World Rest} r.
Arguments released {World Rest} r.
Arguments no_acquire {World Rest A} r.
Arguments single_flight {World Rest} pool s.
Arguments sequential_of {World Rest A} r m.
Arguments holds_guard emitted : simpl never.

(** * Properties *)

Section Properties.

Context {World Rest : Type}.
Variable api : desktopAPI.t World.
Variable t : string -> string.

Local Abbreviation State := (State World Rest).
Local Abbreviation M := (M World Rest).

(** ** Monad laws, pointwise *)

Lemma bind_ret_l {A B} (a : A) (k : A -> M B) (s : State) :
  bind (ret a) k s = k a s.
Proof.
  unfold bind, ret. destruct (k a s) as [[c s2] t2]. reflexivity.
Qed.

Lemma bind_assoc {A B C} (m : M A) (k : A -> M B) (h : B -> M C) (s : State) :
  bind (bind m k) h s = bind m (fun a => bind (k a) h) s.
Proof.
  unfold bind.
  destruct (m s) as [[[a | | e] s1] t1]; try reflexivity.
  destruct (k a s1) as [[[b | | e] s2] t2]; try reflexivity.
  destruct (h b s2) as [[c s3] t3]. now rewrite app_assoc.
Qed.

(** ** What a guarded handler does, in terms of its parts *)

Lemma guarded_held pre body (s : State) :
  enabling s = true -> guarded pre body s = (Normal tt, s, []).
Proof.
  intros H. unfold guarded, async_function, bind, getState, when, return_.
  rewrite H. reflexivity.
Qed.

Lemma guarded_free pre body (s : State) :
  enabling s = false ->
  guarded pre body s =
    match pre s with
    | (Normal _, s0, t0) =>
        match body s (set_enabling true s0) with
        | (Throw e, s1, t1) =>
            (Normal tt,
             set_enabling false (set_virtualDriveConfig (with_enabled false) s1),
             t0 ++ SetEnabling true :: t1 ++
               [ConsoleError e; ErrorToast (message e);
                SetDesktopConfig (with_enabled false (virtualDriveConfig (desktopConfig s1)));
                SetEnabling false])
        | (_, s1, t1) =>
            (Normal tt, set_enabling false s1,
             t0 ++ SetEnabling true :: t1 ++ [SetEnabling false])
        end
    | (Return, s0, t0) => (Normal tt, s0, t0)
    | (Throw e, s0, t0) => (Throw e, s0, t0)
    end.
Proof.
  intros H.
  unfold guarded, async_function, bind, getState, when, return_, ret.
  rewrite H. cbn.
  destruct (pre s) as [[[[] | | e] s0] t0]; cbn; try reflexivity.
  unfold try_finally, try_catch, catch_block, setEnabling, bind,
    console_error, errorToast, emit, setDesktopConfig.
  destruct (body s (set_enabling true s0)) as [[[[] | | e] s1] t1]; cbn;
    try reflexivity.
  rewrite <- app_assoc. reflexivity.
Qed.

Lemma bind_cong {A B} (m : M A) (k k' : A -> M B) (s : State) :
  (forall a s', k a s' = k' a s') -> bind m k s = bind m k' s.
Proof.
  intros H. unfold bind.
  destruct (m s) as [[[a | | e] s1] t1]; try reflexivity.
  now rewrite H.
Qed.

Lemma async_function_cong (b b' : M unit) (s : State) :
  b s = b' s -> async_function b s = async_function b' s.
Proof. intros H. unfold async_function. now rewrite H. Qed.

Lemma transition_guarded (tr : Transition) (s : State) :
  transition api t tr s = guarded (confirmation api tr) (try_block api t tr) s.
Proof.
  destruct tr; cbn [transition confirmation try_block];
    unfold guarded, onCheckedChange, changeMountPoint, onDriveLetterChange,
      onCacheChange, cleanupCache;
    apply async_function_cong;
    apply bind_cong; intros render s1;
    apply bind_cong; intros _ s2;
    first [ now rewrite bind_ret_l | now rewrite bind_assoc ].
Qed.

(** ** Frame rules: which code emits what, and what it leaves alone *)

Ltac use_quiet :=
  rewrite ?filter_app;
  repeat match goal with
    | Hq : quiet _ ?m, E : ?m _ = _ |- _ => rewrite (Hq _ _ _ _ E); clear E
    | Hq : forall a, quiet _ (?k a), E : ?k _ _ = _ |- _ =>
        rewrite (Hq _ _ _ _ _ E); clear E
    end;
  cbn; rewrite ?app_nil_r; auto.

Section Quiet.

Variable p : Event -> bool.

Lemma quiet_ret {A} (a : A) : quiet (World:=World) (Rest:=Rest) p (ret a).
Proof. intros s c s' tr H. now inversion H. Qed.

Lemma quiet_return {A} : quiet (World:=World) (Rest:=Rest) p (@return_ _ _ A).
Proof. intros s c s' tr H. now inversion H. Qed.

Lemma quiet_throw {A} e : quiet (World:=World) (Rest:=Rest) p (@throw _ _ A e).
Proof. intros s c s' tr H. now inversion H. Qed.

Lemma quiet_getState : quiet (World:=World) (Rest:=Rest) p getState.
Proof. intros s c s' tr H. now inversion H. Qed.

Lemma quiet_emit e : p e = false -> quiet (World:=World) (Rest:=Rest) p (emit e).
Proof. intros He s c s' tr H. inversion H. cbn. now rewrite He. Qed.

Lemma quiet_bind {A B} (m : M A) (k : A -> M B) :
  quiet p m -> (forall a, quiet p (k a)) -> quiet p (bind m k).
Proof.
  intros Hm Hk s c s' tr H. unfold bind in H.
  destruct (m s) as [[[a | | e] s1] t1] eqn:E1.
  - destruct (k a s1) as [[c2 s2] t2] eqn:E2. inversion H; subst.
    use_quiet.
  - inversion H; subst. use_quiet.
  - inversion H; subst. use_quiet.
Qed.

Lemma quiet_when c (body : M unit) : quiet p body -> quiet p (when c body).
Proof. intros Hb. destruct c; cbn; auto using quiet_ret. Qed.

Lemma quiet_if {A} (c : bool) (a b : M A) :
  quiet p a -> quiet p b -> quiet p (if c then a else b).
Proof. now destruct c. Qed.

Lemma quiet_and_then c (m : M bool) : quiet p m -> quiet p (and_then c m).
Proof. intros Hm. destruct c; cbn; auto using quiet_ret. Qed.

Lemma quiet_try_catch {A} (body : M A) handler :
  quiet p body -> (forall e, quiet p (handler e)) -> quiet p (try_catch body handler).
Proof.
  intros Hb Hh s c s' tr H. unfold try_catch in H.
  destruct (body s) as [[[a | | e] s1] t1] eqn:E1.
  - inversion H; subst. use_quiet.
  - inversion H; subst. use_quiet.
  - destruct (handler e s1) as [[c2 s2] t2] eqn:E2. inversion H; subst.
    use_quiet.
Qed.

Lemma quiet_try_finally {A} (body : M A) final :
  quiet p body -> quiet p final -> quiet p (try_finally body final).
Proof.
  intros Hb Hf s c s' tr H. unfold try_finally in H.
  destruct (body s) as [[c1 s1] t1] eqn:E1.
  destruct (final s1) as [[[a | | e] s2] t2] eqn:E2;
    inversion H; subst; use_quiet.
Qed.

Lemma quiet_async_function (body : M unit) :
  quiet p body -> quiet p (async_function body).
Proof.
  intros Hb s c s' tr H. unfold async_function in H.
  destruct (body s) as [[[a | | e] s1] t1] eqn:E1;
    inversion H; subst; use_quiet.
Qed.

Lemma quiet_native {A} c (f : World -> Promise A * World) :
  p (Native c) = false -> quiet (Rest:=Rest) p (native c f).
Proof.
  intros Hc s r s' tr H. unfold native in H.
  destruct (f (world s)) as [[a | e] w]; inversion H; cbn; now rewrite Hc.
Qed.

Lemma quiet_showConfirmDialog d :
  p (ConfirmDialog d) = false -> quiet (Rest:=Rest) p (showConfirmDialog api d).
Proof.
  intros Hc s r s' tr H. unfold showConfirmDialog in H.
  destruct (desktopAPI.showConfirmDialog api d (world s)) as [[a | e] w];
    inversion H; cbn; now rewrite Hc.
Qed.

Lemma quiet_promise_all2 {A B} (a : M A) (b : M B) :
  quiet p a -> quiet p b -> quiet p (promise_all2 a b).
Proof.
  intros Ha Hb s c s' tr H. unfold promise_all2 in H.
  destruct (a s) as [[c1 s1] t1] eqn:E1.
  destruct (b s1) as [[c2 s2] t2] eqn:E2.
  inversion H; subst. use_quiet.
Qed.

Lemma quiet_promise_all (ps : list (M unit)) :
  Forall (quiet p) ps -> quiet p (promise_all ps).
Proof.
  induction 1 as [| q ps Hq Hps IH]; cbn.
  - apply quiet_ret.
  - pose proof (quiet_promise_all2 q (promise_all ps) Hq IH) as Hall.
    intros s c s' tr H.
    destruct (promise_all2 q (promise_all ps) s) as [[[a | | e] s1] t1] eqn:E1;
      inversion H; subst; use_quiet.
Qed.

Lemma quiet_setEnabling b :
  p (SetEnabling b) = false -> quiet (World:=World) (Rest:=Rest) p (setEnabling b).
Proof. intros Hb s c s' tr H. inversion H. cbn. now rewrite Hb. Qed.

Lemma quiet_setDesktopConfig f :
  (forall v, p (SetDesktopConfig v) = false) ->
  quiet (World:=World) (Rest:=Rest) p (setDesktopConfig f).
Proof. intros Hv s c s' tr H. inversion H. cbn. now rewrite Hv. Qed.

Lemma quiet_refetch {A} k (queryFn : M A) get set :
  p (Refetch k) = false -> quiet p queryFn -> quiet p (refetch k queryFn get set).
Proof.
  intros Hk Hq s c s' tr H. unfold refetch in H.
  destruct (queryFn s) as [[[a | | e] s1] t1] eqn:E1;
    inversion H; subst; cbn; rewrite Hk; use_quiet.
Qed.

End Quiet.

Section Keeps.

Context {X : Type}.
Variable proj : State -> X.

Lemma keeps_ret {A} (a : A) : keeps proj (ret a).
Proof. intros s c s' tr H. now inversion H. Qed.

Lemma keeps_return {A} : keeps proj (@return_ _ _ A).
Proof. intros s c s' tr H. now inversion H. Qed.

Lemma keeps_throw {A} e : keeps proj (@throw _ _ A e).
Proof. intros s c s' tr H. now inversion H. Qed.

Lemma keeps_getState : keeps proj getState.
Proof. intros s c s' tr H. now inversion H. Qed.

Lemma keeps_emit e : keeps proj (emit e).
Proof. intros s c s' tr H. now inversion H. Qed.

Lemma keeps_bind {A B} (m : M A) (k : A -> M B) :
  keeps proj m -> (forall a, keeps proj (k a)) -> keeps proj (bind m k).
Proof.
  intros Hm Hk s c s' tr H. unfold bind in H.
  destruct (m s) as [[[a | | e] s1] t1] eqn:E1.
  - destruct (k a s1) as [[c2 s2] t2] eqn:E2. inversion H; subst.
    rewrite (Hk _ _ _ _ _ E2). eauto.
  - inversion H; subst. eauto.
  - inversion H; subst. eauto.
Qed.

Lemma keeps_when c (body : M unit) : keeps proj body -> keeps proj (when c body).
Proof. intros Hb. destruct c; cbn; auto using keeps_ret. Qed.

Lemma keeps_if {A} (c : bool) (a b : M A) :
  keeps proj a -> keeps proj b -> keeps proj (if c then a else b).
Proof. now destruct c. Qed.

Lemma keeps_and_then c (m : M bool) : keeps proj m -> keeps proj (and_then c m).
Proof. intros Hm. destruct c; cbn; auto using keeps_ret. Qed.

Lemma keeps_try_catch {A} (body : M A) handler :
  keeps proj body -> (forall e, keeps proj (handler e)) ->
  keeps proj (try_catch body handler).
Proof.
  intros Hb Hh s c s' tr H. unfold try_catch in H.
  destruct (body s) as [[[a | | e] s1] t1] eqn:E1.
  - inversion H; subst. eauto.
  - inversion H; subst. eauto.
  - destruct (handler e s1) as [[c2 s2] t2] eqn:E2. inversion H; subst.
    rewrite (Hh _ _ _ _ _ E2). eauto.
Qed.

Lemma keeps_native {A} c (f : World -> Promise A * World) :
  (forall w s, proj (set_world w s) = proj s) -> keeps proj (native c f).
Proof.
  intros Hw s r s' tr H. unfold native in H.
  destruct (f (world s)) as [[a | e] w]; inversion H; apply Hw.
Qed.

Lemma keeps_showConfirmDialog d :
  (forall w s, proj (set_world w s) = proj s) ->
  keeps proj (showConfirmDialog api d).
Proof.
  intros Hw s r s' tr H. unfold showConfirmDialog in H.
  destruct (desktopAPI.showConfirmDialog api d (world s)) as [[a | e] w];
    inversion H; apply Hw.
Qed.

Lemma keeps_promise_all2 {A B} (a : M A) (b : M B) :
  keeps proj a -> keeps proj b -> keeps proj (promise_all2 a b).
Proof.
  intros Ha Hb s c s' tr H. unfold promise_all2 in H.
  destruct (a s) as [[c1 s1] t1] eqn:E1.
  destruct (b s1) as [[c2 s2] t2] eqn:E2.
  inversion H; subst. rewrite (Hb _ _ _ _ E2). eauto.
Qed.

Lemma keeps_promise_all (ps : list (M unit)) :
  Forall (keeps proj) ps -> keeps proj (promise_all ps).
Proof.
  induction 1 as [| q ps Hq Hps IH]; cbn.
  - apply keeps_ret.
  - pose proof (keeps_promise_all2 q (promise_all ps) Hq IH) as Hall.
    intros s c s' tr H.
    destruct (promise_all2 q (promise_all ps) s) as [[[a | | e] s1] t1] eqn:E1;
      inversion H; subst; eauto.
Qed.

Lemma keeps_refetch {A} k (queryFn : M A) get set :
  (forall q s, proj (set q s) = proj s) -> keeps proj queryFn ->
  keeps proj (refetch k queryFn get set).
Proof.
  intros Hset Hq s c s' tr H. unfold refetch in H.
  destruct (queryFn s) as [[[a | | e] s1] t1] eqn:E1;
    inversion H; subst; rewrite Hset; eauto.
Qed.

End Keeps.

Lemma keeps_desktopConfig_setEnabling b :
  keeps (World:=World) (Rest:=Rest) desktopConfig (setEnabling b).
Proof. intros s c s' tr H. now inversion H. Qed.

Lemma keeps_enabling_setDesktopConfig f :
  keeps (World:=World) (Rest:=Rest) enabling (setDesktopConfig f).
Proof. intros s c s' tr H. now inversion H. Qed.

Lemma abrupt_of_keeps {X} (proj : State -> X) {A} (m : M A) :
  keeps proj m -> keeps_if_abrupt proj m.
Proof. intros Hm s c s' tr H _. eauto. Qed.

Lemma abrupt_bind {X} (proj : State -> X) {A B} (m : M A) (k : A -> M B) :
  keeps proj m -> (forall a, keeps_if_abrupt proj (k a)) ->
  keeps_if_abrupt proj (bind m k).
Proof.
  intros Hm Hk s c s' tr H Hc. unfold bind in H.
  destruct (m s) as [[[a | | e] s1] t1] eqn:E1.
  - destruct (k a s1) as [[c2 s2] t2] eqn:E2. inversion H; subst.
    rewrite (Hk _ _ _ _ _ E2 Hc). eauto.
  - inversion H; subst. eauto.
  - inversion H; subst. eauto.
Qed.

Lemma abrupt_setDesktopConfig {X} (proj : State -> X) f :
  keeps_if_abrupt proj (setDesktopConfig f).
Proof. intros s c s' tr H Hc. inversion H; subst. now destruct (Hc tt). Qed.

Create HintDb frame.

#[local] Hint Resolve
  quiet_ret quiet_return quiet_throw quiet_getState quiet_emit quiet_bind
  quiet_when quiet_if quiet_and_then quiet_try_catch quiet_try_finally
  quiet_async_function quiet_native quiet_showConfirmDialog
  quiet_promise_all2 quiet_promise_all quiet_setEnabling
  quiet_setDesktopConfig quiet_refetch
  keeps_ret keeps_return keeps_throw keeps_getState keeps_emit keeps_bind
  keeps_when keeps_if keeps_and_then keeps_try_catch keeps_native
  keeps_showConfirmDialog keeps_promise_all2 keeps_promise_all keeps_refetch
  keeps_desktopConfig_setEnabling keeps_enabling_setDesktopConfig
  abrupt_bind abrupt_setDesktopConfig
  Forall_cons Forall_nil : frame.

Ltac frame :=
  unfold try_block, confirmation,
    onCheckedChange_try, changeMountPoint_try, onDriveLetterChange_try,
    onCacheChange_try, cleanupCache_try, mountPointInvalid, catch_block,
    isMountedQuery_refetch, availableDrivesQuery_refetch,
    cacheSizeQuery_refetch, availableCacheSizeQuery_refetch,
    errorToast, console_error;
  auto 40 with frame.

Lemma quiet_isVirtualDriveMounted p :
  p (Native IsVirtualDriveMounted) = false ->
  p (Native IsVirtualDriveActive) = false ->
  quiet (Rest:=Rest) p (isVirtualDriveMounted api).
Proof.
  intros Hm Ha. unfold isVirtualDriveMounted.
  apply quiet_bind; [frame | intros [m a]; apply quiet_ret].
Qed.

Lemma keeps_isVirtualDriveMounted {X} (proj : State -> X) :
  (forall w s, proj (set_world w s) = proj s) ->
  keeps proj (isVirtualDriveMounted api).
Proof.
  intros Hw. unfold isVirtualDriveMounted.
  apply keeps_bind; [frame | intros [m a]; apply keeps_ret].
Qed.

#[local] Hint Resolve quiet_isVirtualDriveMounted keeps_isVirtualDriveMounted : frame.

(** The [try] blocks and the confirmation step never touch the guard. *)

Lemma try_block_guard_quiet tr (render : State) :
  quiet is_guard_write (try_block api t tr render).
Proof. destruct tr; frame. Qed.

Lemma try_block_keeps_enabling tr (render : State) :
  keeps enabling (try_block api t tr render).
Proof. destruct tr; frame. Qed.

Lemma confirmation_guard_quiet tr :
  quiet (Rest:=Rest) is_guard_write (confirmation api tr).
Proof. destruct tr; frame. Qed.

Lemma confirmation_keeps_enabling tr :
  keeps (Rest:=Rest) enabling (confirmation api tr).
Proof. destruct tr; frame. Qed.

Lemma confirmation_keeps_desktopConfig tr :
  keeps (Rest:=Rest) desktopConfig (confirmation api tr).
Proof. destruct tr; frame. Qed.

(** A [try] block writes the configuration only as its last step. *)
Lemma try_block_config_last tr (render : State) :
  keeps_if_abrupt desktopConfig (try_block api t tr render).
Proof.
  destruct tr; try solve [frame].
  apply abrupt_of_keeps. frame.
Qed.

(** ** The single-flight guard *)

Lemma guard_writes_bracket (t0 t1 t2 : Trace) :
  filter is_guard_write t0 = [] ->
  filter is_guard_write t1 = [] ->
  filter is_guard_write t2 = [] ->
  filter is_guard_write (t0 ++ SetEnabling true :: t1 ++ t2 ++ [SetEnabling false])
  = [SetEnabling true; SetEnabling false].
Proof.
  intros H0 H1 H2.
  rewrite filter_app, H0. cbn.
  rewrite !filter_app, H1, H2. reflexivity.
Qed.

(** One handler, run from entry to return with nothing in between.
    Entered while the flag [enabling] is set it settles at once, leaving
    the state as it was and emitting no event.  In any such run, either
    the flag is never written, or it is set exactly once and cleared
    exactly once, clearing it is the last event of the run, the flag is
    clear in the final state, and the handler settles normally, whatever
    was thrown inside.  Handlers that overlap are the subject of
    [guard_serialises_unconfirmed_transitions] below. *)
Lemma uninterrupted_guard_bracket (tr : Transition) (s : State) :
  (enabling s = true -> transition api t tr s = (Normal tt, s, [])) /\
  (forall c s' trace,
      transition api t tr s = (c, s', trace) ->
      (filter is_guard_write trace = [] /\ enabling s' = enabling s)
      \/ (filter is_guard_write trace = [SetEnabling true; SetEnabling false]
          /\ (exists pre, trace = pre ++ [SetEnabling false])
          /\ enabling s' = false
          /\ c = Normal tt)).
Proof.
  split.
  - intros H. rewrite transition_guarded. now apply guarded_held.
  - intros c s' trace Hrun. rewrite transition_guarded in Hrun.
    destruct (enabling s) eqn:Hg.
    + rewrite (guarded_held _ _ _ Hg) in Hrun. inversion Hrun; subst.
      left. split; [reflexivity | now rewrite Hg].
    + rewrite (guarded_free _ _ _ Hg) in Hrun.
      destruct (confirmation api tr s) as [[[[] | | e0] s0] t0] eqn:Ec.
      * pose proof (confirmation_guard_quiet tr _ _ _ _ Ec) as Q0.
        destruct (try_block api t tr s (set_enabling true s0))
          as [[[[] | | e] s1] t1] eqn:Eb;
          pose proof (try_block_guard_quiet tr s _ _ _ _ Eb) as Q1;
          inversion Hrun; subst; right.
        -- repeat split; auto.
           ++ now apply (guard_writes_bracket t0 t1 []).
           ++ exists (t0 ++ SetEnabling true :: t1).
              now rewrite <- app_assoc.
        -- repeat split; auto.
           ++ now apply (guard_writes_bracket t0 t1 []).
           ++ exists (t0 ++ SetEnabling true :: t1).
              now rewrite <- app_assoc.
        -- repeat split; auto.
           ++ now apply (guard_writes_bracket t0 t1
                [ConsoleError e; ErrorToast (message e);
                 SetDesktopConfig
                   (with_enabled false (virtualDriveConfig (desktopConfig s1)))]).
           ++ exists (t0 ++ SetEnabling true :: t1 ++
                [ConsoleError e; ErrorToast (message e);
                 SetDesktopConfig
                   (with_enabled false (virtualDriveConfig (desktopConfig s1)))]).
              repeat (rewrite <- app_assoc || rewrite <- app_comm_cons).
              reflexivity.
      * inversion Hrun; subst. left. split.
        -- exact (confirmation_guard_quiet tr _ _ _ _ Ec).
        -- rewrite (confirmation_keeps_enabling tr _ _ _ _ Ec). now rewrite Hg.
      * inversion Hrun; subst. left. split.
        -- exact (confirmation_guard_quiet tr _ _ _ _ Ec).
        -- rewrite (confirmation_keeps_enabling tr _ _ _ _ Ec). now rewrite Hg.
Qed.

(** ** The mounted signal *)

(** C8.  When both native signals resolve, [isVirtualDriveMounted]
    resolves to their conjunction: [mounted] is true exactly when the
    service reports the mount present and reports it active, and that is
    the value a refresh of the mount-state query stores. *)
Theorem mounted_is_conjunction (s : State) (present active : bool) (w1 w2 : World) :
  desktopAPI.isVirtualDriveMounted api (world s) = (Resolved present, w1) ->
  desktopAPI.isVirtualDriveActive api w1 = (Resolved active, w2) ->
  isVirtualDriveMounted api s
  = (Normal {| mounted := present && active |}, set_world w2 s,
     [Native IsVirtualDriveMounted; Native IsVirtualDriveActive])
  /\ (present && active = true <-> present = true /\ active = true)
  /\ (present = false \/ active = false -> present && active = false)
  /\ isMountedQuery_refetch api s
     = (Normal tt,
        set_isMountedQuery
          (mkQueryState (Some {| mounted := present && active |}) true)
          (set_world w2 s),
        [Refetch KIsVirtualDriveMounted;
         Native IsVirtualDriveMounted; Native IsVirtualDriveActive]).
Proof.
  intros Hp Ha.
  assert (Hrun : isVirtualDriveMounted api s
                 = (Normal {| mounted := present && active |}, set_world w2 s,
                    [Native IsVirtualDriveMounted; Native IsVirtualDriveActive])).
  { unfold isVirtualDriveMounted, bind, promise_all2, native.
    rewrite Hp. cbn. rewrite Ha. reflexivity. }
  split; [exact Hrun |].
  split; [apply andb_true_iff |].
  split.
  - intros [-> | ->]; [reflexivity | apply andb_false_r].
  - unfold isMountedQuery_refetch, refetch. rewrite Hrun. reflexivity.
Qed.

(** ** Declined confirmation and cancelled picker *)

(** C6.  A request to disable that the user declines in the
    confirmation dialog settles normally with the dialog as its only
    event: the guard is never written, no native call is issued, no
    error is reported, and the configuration and the query results are
    exactly what they were. *)
Theorem declined_disable_changes_nothing (s : State) (w1 : World) :
  enabling s = false ->
  desktopAPI.showConfirmDialog api DisableDialog (world s) = (Resolved false, w1) ->
  onCheckedChange api t false s
  = (Normal tt, set_world w1 s, [ConfirmDialog DisableDialog]).
Proof.
  intros Hg Hd.
  change (onCheckedChange api t false s) with (transition api t (Toggle false) s).
  rewrite transition_guarded, (guarded_free _ _ _ Hg).
  cbn [confirmation negb and_then].
  unfold bind, showConfirmDialog. rewrite Hd. reflexivity.
Qed.

(** C10.  When the directory picker resolves to cancelled, or to no
    usable first path, [changeMountPoint] settles normally after taking
    and releasing the guard: the picker is the only call issued (no
    validation, no remount, no refresh), no error is reported, and the
    configuration and the query results are exactly what they were. *)
Theorem cancelled_picker_changes_nothing
    (s : State) (picked : SelectDirectoryResult) (w1 : World) :
  enabling s = false ->
  desktopAPI.selectDirectory api false (world s) = (Resolved picked, w1) ->
  cancelled picked = true \/ falsy (nth_error (paths picked) 0) = true ->
  changeMountPoint api t s
  = (Normal tt, set_world w1 s,
     [SetEnabling true; Native (SelectDirectory false); SetEnabling false]).
Proof.
  intros Hg Hp Hc.
  change (changeMountPoint api t s) with (transition api t ChangeMountPoint s).
  rewrite transition_guarded, (guarded_free _ _ _ Hg).
  cbn [confirmation try_block]. unfold ret at 1.
  unfold changeMountPoint_try, bind at 1, native. cbn [world set_enabling].
  rewrite Hp.
  assert (Hor : cancelled picked || falsy (nth_error (paths picked) 0) = true)
    by (apply orb_true_iff; exact Hc).
  unfold bind at 1. rewrite Hor. cbn.
  destruct s; cbn in *; subst; reflexivity.
Qed.

(** ** Failures *)

Lemma mountPointInvalid_frame (render : State) :
  keeps desktopConfig (mountPointInvalid api render)
  /\ quiet is_config_write (mountPointInvalid api render)
  /\ quiet is_refetch (mountPointInvalid api render).
Proof. repeat split; frame. Qed.

Lemma isVirtualDriveMounted_frame :
  keeps (Rest:=Rest) desktopConfig (isVirtualDriveMounted api)
  /\ quiet (Rest:=Rest) is_config_write (isVirtualDriveMounted api)
  /\ quiet (Rest:=Rest) is_refetch (isVirtualDriveMounted api).
Proof. repeat split; frame. Qed.

(** C5.  Enabling: when the mount point check passes and
    [restartVirtualDrive] resolves, the controller probes the mount
    again; if the probe says not mounted, the run ends in the [catch]
    block like any native failure: "Could not start virtual drive." is
    reported, [enabled] is written [false] with the other fields as
    they were, nothing is refreshed, [enabled = true] is never written,
    and the guard is released. *)
Theorem enable_reverifies_mount
    (s s1 s3 : State) (w2 : World) (tv tm : Trace) (after : MountedResult) :
  enabling s = false ->
  mountPointInvalid api s (set_enabling true s) = (Normal false, s1, tv) ->
  desktopAPI.restartVirtualDrive api (world s1) = (Resolved tt, w2) ->
  isVirtualDriveMounted api (set_world w2 s1) = (Normal after, s3, tm) ->
  mounted after = false ->
  let failure := mkError "Could not start virtual drive." in
  let written := with_enabled false (virtualDriveConfig (desktopConfig s)) in
  let trace :=
    SetEnabling true :: tv ++ Native RestartVirtualDrive :: tm ++
      [ConsoleError failure; ErrorToast "Could not start virtual drive.";
       SetDesktopConfig written; SetEnabling false] in
  onCheckedChange api t true s
  = (Normal tt,
     set_enabling false (set_virtualDriveConfig (with_enabled false) s3),
     trace)
  /\ virtualDriveConfig
       (desktopConfig
          (set_enabling false (set_virtualDriveConfig (with_enabled false) s3)))
     = written
  /\ filter is_config_write trace = [SetDesktopConfig written]
  /\ filter is_refetch trace = [].
Proof.
  intros Hg Hv Hr Hm Hdown failure written trace.
  assert (Htry : onCheckedChange_try api t true s (set_enabling true s)
                 = (Throw failure, s3, tv ++ Native RestartVirtualDrive :: tm)).
  { unfold onCheckedChange_try. unfold bind at 1. rewrite Hv. cbn [when].
    unfold bind at 1. unfold ret at 1.
    unfold bind at 1. unfold bind at 1. unfold native at 1. rewrite Hr.
    unfold bind at 1. rewrite Hm, Hdown. cbn.
    now rewrite app_nil_r. }
  destruct (mountPointInvalid_frame s) as (Kv & Qv & Rv).
  destruct isVirtualDriveMounted_frame as (Km & Qm & Rm).
  assert (Hcfg : desktopConfig s3 = desktopConfig s).
  { rewrite (Km _ _ _ _ Hm). cbn. now rewrite (Kv _ _ _ _ Hv). }
  split; [| split; [| split]].
  - change (onCheckedChange api t true s) with (transition api t (Toggle true) s).
    rewrite transition_guarded, (guarded_free _ _ _ Hg).
    cbn [confirmation negb and_then try_block]. rewrite bind_ret_l.
    cbn [when]. unfold ret at 1. rewrite Htry. rewrite Hcfg.
    subst trace written failure. cbn.
    repeat (rewrite <- app_assoc || rewrite <- app_comm_cons). reflexivity.
  - cbn. now rewrite Hcfg.
  - subst trace. cbn. rewrite filter_app, (Qv _ _ _ _ Hv). cbn.
    rewrite filter_app, (Qm _ _ _ _ Hm). reflexivity.
  - subst trace. cbn. rewrite filter_app, (Rv _ _ _ _ Hv). cbn.
    rewrite filter_app, (Rm _ _ _ _ Hm). reflexivity.
Qed.

(** C4.  For every mutating transition: if, with the guard free and
    any confirmation given, the [try] block throws [e], the transition
    settles normally, reports [e.message] in an error toast, and writes
    the configuration once: [enabled] becomes [false], [mountPoint],
    [cacheSizeInGi] and every other setting keep the values they had
    when the transition began; the guard is released. *)
Theorem failure_forces_disabled
    (tr : Transition) (s s0 s1 : State) (t0 t1 : Trace) (e : Error) :
  enabling s = false ->
  confirmation api tr s = (Normal tt, s0, t0) ->
  try_block api t tr s (set_enabling true s0) = (Throw e, s1, t1) ->
  let written := with_enabled false (virtualDriveConfig (desktopConfig s)) in
  let s' := set_enabling false (set_virtualDriveConfig (with_enabled false) s1) in
  transition api t tr s
  = (Normal tt, s',
     t0 ++ SetEnabling true :: t1 ++
       [ConsoleError e; ErrorToast (message e);
        SetDesktopConfig written; SetEnabling false])
  /\ desktopConfig s' = mkDesktopConfig written (otherConfig (desktopConfig s))
  /\ enabled (virtualDriveConfig (desktopConfig s')) = false
  /\ mountPoint (virtualDriveConfig (desktopConfig s'))
     = mountPoint (virtualDriveConfig (desktopConfig s))
  /\ cacheSizeInGi (virtualDriveConfig (desktopConfig s'))
     = cacheSizeInGi (virtualDriveConfig (desktopConfig s))
  /\ enabling s' = false.
Proof.
  intros Hg Hc Hb written s'.
  assert (Hcfg : desktopConfig s1 = desktopConfig s).
  { rewrite (try_block_config_last tr s _ _ _ _ Hb) by discriminate.
    cbn. exact (confirmation_keeps_desktopConfig tr _ _ _ _ Hc). }
  split.
  - rewrite transition_guarded, (guarded_free _ _ _ Hg), Hc, Hb, Hcfg.
    reflexivity.
  - subst s' written. cbn. rewrite Hcfg. repeat split.
Qed.

(** ** The query layer always settles *)

Lemma refetch_settles {A} k (queryFn : M A) get set :
  settles (refetch k queryFn get set).
Proof.
  intros s. unfold refetch.
  destruct (queryFn s) as [[[a | | e] s1] t1]; eauto.
Qed.

Lemma promise_all_settles (ps : list (M unit)) :
  Forall settles ps -> settles (promise_all ps).
Proof.
  induction 1 as [| q ps Hq Hps IH]; intros s; cbn.
  - unfold ret. eauto.
  - unfold promise_all2.
    destruct (Hq s) as (s1 & t1 & ->).
    destruct (IH s1) as (s2 & t2 & ->). eauto.
Qed.

Lemma isVirtualDriveMounted_calls (s s' : State) c tr :
  isVirtualDriveMounted api s = (c, s', tr) ->
  tr = [Native IsVirtualDriveMounted; Native IsVirtualDriveActive].
Proof.
  unfold isVirtualDriveMounted, bind, promise_all2, native. intros H.
  destruct (desktopAPI.isVirtualDriveMounted api (world s)) as [[p | e1] w1];
    cbn in H;
    destruct (desktopAPI.isVirtualDriveActive api w1) as [[a | e2] w2];
    cbn in H; inversion H; reflexivity.
Qed.

(** ** Changing the cache size *)

(** C3, as the code has it.  [onCacheChange] never looks at the step
    set.  For every size string, with the guard free, the mount point
    check passing and the drive probed as not mounted: the two probe
    calls are issued, the three queries are refreshed, and
    [parseInt(size)] is written to [cacheSizeInGi] as it is, neither
    rejected nor clamped; the other fields are left alone. *)
Theorem cache_change_persists_any_size
    (size : string) (s s1 s2 : State) (tv tm : Trace) (before : MountedResult) :
  enabling s = false ->
  mountPointInvalid api s (set_enabling true s) = (Normal false, s1, tv) ->
  isVirtualDriveMounted api s1 = (Normal before, s2, tm) ->
  mounted before = false ->
  exists s3 tq,
    promise_all
      [isMountedQuery_refetch api; availableDrivesQuery_refetch api;
       availableCacheSizeQuery_refetch api] s2 = (Normal tt, s3, tq)
    /\ onCacheChange api t size s
       = (Normal tt,
          set_enabling false
            (set_virtualDriveConfig (with_cacheSizeInGi (parseInt size)) s3),
          SetEnabling true :: tv ++
            [Native IsVirtualDriveMounted; Native IsVirtualDriveActive] ++ tq ++
            [SetDesktopConfig
               (with_cacheSizeInGi (parseInt size)
                  (virtualDriveConfig (desktopConfig s)));
             SetEnabling false])
    /\ virtualDriveConfig (desktopConfig s3) = virtualDriveConfig (desktopConfig s).
Proof.
  intros Hg Hv Hm Hdown.
  pose proof (isVirtualDriveMounted_calls _ _ _ _ Hm) as ->.
  destruct (promise_all_settles
              [isMountedQuery_refetch api; availableDrivesQuery_refetch api;
               availableCacheSizeQuery_refetch api]) with (s := s2)
    as (s3 & tq & Hq).
  { repeat constructor; apply refetch_settles. }
  exists s3, tq.
  destruct (mountPointInvalid_frame s) as (Kv & _ & _).
  destruct isVirtualDriveMounted_frame as (Km & _ & _).
  assert (Kq : keeps desktopConfig
                 (promise_all
                    [isMountedQuery_refetch api; availableDrivesQuery_refetch api;
                     availableCacheSizeQuery_refetch api])) by frame.
  assert (Hcfg : desktopConfig s3 = desktopConfig s).
  { rewrite (Kq _ _ _ _ Hq), (Km _ _ _ _ Hm). now rewrite (Kv _ _ _ _ Hv). }
  split; [exact Hq | split; [| now rewrite Hcfg]].
  change (onCacheChange api t size s)
    with (transition api t (ChangeCacheSize size) s).
  rewrite transition_guarded, (guarded_free _ _ _ Hg).
  cbn [confirmation try_block]. unfold ret at 1.
  unfold onCacheChange_try. unfold bind at 1. rewrite Hv. cbn [when].
  unfold bind at 1. unfold ret at 1.
  unfold bind at 1. rewrite Hm, Hdown. cbn [when].
  unfold bind at 1. unfold ret at 1.
  unfold bind at 1. rewrite Hq.
  unfold setDesktopConfig. rewrite Hcfg. cbn.
  repeat (rewrite <- app_assoc || rewrite <- app_comm_cons || rewrite app_nil_r).
  reflexivity.
Qed.

(** ** Changing the mount point *)

(** The only path the mount point check ever hands to the service is the
    configured one. *)
Lemma mountPointInvalid_calls (render s s' : State) c tr :
  mountPointInvalid api render s = (c, s', tr) ->
  tr = []
  \/ tr = [Native (VerifyUnixMountPath (mountPoint (virtualDriveConfig (desktopConfig render))))].
Proof.
  unfold mountPointInvalid, and_then. intros H.
  destruct (negb (desktopAPI.platform api =? "win32")%string).
  - right. unfold bind, native in H.
    destruct (desktopAPI.verifyUnixMountPath api
                (mountPoint (virtualDriveConfig (desktopConfig render))) (world s))
      as [[usable | e] w]; cbn in H; inversion H; reflexivity.
  - left. inversion H. reflexivity.
Qed.

(** What the code does with the picked directory: once the configured
    path passes the check and the drive is probed as not mounted, the
    pick is persisted as the new mount point, and no call of the run
    carries the pick to the service. *)
Lemma changeMountPoint_persists_pick_unchecked
    (s s2 s3 : State) (w1 : World) (picked : SelectDirectoryResult) (path : string)
    (tv tm : Trace) (before : MountedResult) :
  enabling s = false ->
  desktopAPI.selectDirectory api false (world s) = (Resolved picked, w1) ->
  cancelled picked = false ->
  nth_error (paths picked) 0 = Some path ->
  falsy (Some path) = false ->
  mountPointInvalid api s (set_world w1 (set_enabling true s)) = (Normal false, s2, tv) ->
  isVirtualDriveMounted api s2 = (Normal before, s3, tm) ->
  mounted before = false ->
  exists s4 tq,
    promise_all [isMountedQuery_refetch api; availableDrivesQuery_refetch api] s3
    = (Normal tt, s4, tq)
    /\ changeMountPoint api t s
       = (Normal tt,
          set_enabling false (set_virtualDriveConfig (with_mountPoint path) s4),
          SetEnabling true :: Native (SelectDirectory false) :: tv ++
            [Native IsVirtualDriveMounted; Native IsVirtualDriveActive] ++ tq ++
            [SetDesktopConfig
               (with_mountPoint path (virtualDriveConfig (desktopConfig s)));
             SetEnabling false]).
Proof.
  intros Hg Hp Hc Hpath Htruthy Hv Hm Hdown.
  pose proof (isVirtualDriveMounted_calls _ _ _ _ Hm) as ->.
  destruct (promise_all_settles
              [isMountedQuery_refetch api; availableDrivesQuery_refetch api])
    with (s := s3) as (s4 & tq & Hq).
  { repeat constructor; apply refetch_settles. }
  exists s4, tq. split; [exact Hq |].
  destruct (mountPointInvalid_frame s) as (Kv & _ & _).
  destruct isVirtualDriveMounted_frame as (Km & _ & _).
  assert (Kq : keeps desktopConfig
                 (promise_all
                    [isMountedQuery_refetch api; availableDrivesQuery_refetch api]))
    by frame.
  assert (Hcfg : desktopConfig s4 = desktopConfig s).
  { rewrite (Kq _ _ _ _ Hq), (Km _ _ _ _ Hm). now rewrite (Kv _ _ _ _ Hv). }
  change (changeMountPoint api t s) with (transition api t ChangeMountPoint s).
  rewrite transition_guarded, (guarded_free _ _ _ Hg).
  cbn [confirmation try_block]. unfold ret at 1.
  unfold changeMountPoint_try. unfold bind at 1. unfold native at 1.
  cbn [world set_enabling]. rewrite Hp.
  unfold bind at 1. rewrite Hc, Hpath, Htruthy. cbn [orb when].
  unfold ret at 1.
  unfold bind at 1. rewrite Hv. unfold bind at 1. cbn [when]. unfold ret at 1.
  unfold bind at 1. rewrite Hm, Hdown.
  unfold bind at 1. cbn [when]. unfold ret at 1.
  unfold bind at 1. rewrite Hq.
  unfold setDesktopConfig. rewrite Hcfg. cbn.
  repeat (rewrite <- app_assoc || rewrite <- app_comm_cons || rewrite app_nil_r).
  reflexivity.
Qed.

(** ** Purging the cache *)

(** What the code does about the restart: it is decided by the probe
    made after [stopVirtualDrive] and [virtualDriveCleanupCache].  When
    that probe reports the drive down, no restart is issued, whatever
    the state of the mount was when the purge began. *)
Lemma purge_restart_follows_late_probe
    (s s3 : State) (w0 w1 w2 : World) (tm : Trace) (now : MountedResult) :
  enabling s = false ->
  desktopAPI.showConfirmDialog api CleanupCacheDialog (world s) = (Resolved true, w0) ->
  desktopAPI.stopVirtualDrive api w0 = (Resolved tt, w1) ->
  desktopAPI.virtualDriveCleanupCache api w1 = (Resolved tt, w2) ->
  isVirtualDriveMounted api (set_world w2 (set_enabling true s)) = (Normal now, s3, tm) ->
  mounted now = false ->
  exists s' trace,
    cleanupCache api s = (Normal tt, s', trace)
    /\ filter is_restart trace = []
    /\ desktopConfig s' = desktopConfig s.
Proof.
  intros Hg Hd Hs Hp Hm Hdown.
  pose proof (isVirtualDriveMounted_calls _ _ _ _ Hm) as ->.
  destruct (promise_all_settles
              [cacheSizeQuery_refetch api; isMountedQuery_refetch api;
               availableDrivesQuery_refetch api]) with (s := s3)
    as (s4 & tq & Hq).
  { repeat constructor; apply refetch_settles. }
  assert (Qq : quiet is_restart
                 (promise_all
                    [cacheSizeQuery_refetch api; isMountedQuery_refetch api;
                     availableDrivesQuery_refetch api])) by frame.
  assert (Kq : keeps desktopConfig
                 (promise_all
                    [cacheSizeQuery_refetch api; isMountedQuery_refetch api;
                     availableDrivesQuery_refetch api])) by frame.
  destruct isVirtualDriveMounted_frame as (Km & _ & _).
  assert (Hrun : cleanupCache api s
                 = (Normal tt, set_enabling false s4,
                    ConfirmDialog CleanupCacheDialog :: SetEnabling true ::
                      Native StopVirtualDrive :: Native VirtualDriveCleanupCache ::
                      Native IsVirtualDriveMounted :: Native IsVirtualDriveActive ::
                      tq ++ [SetEnabling false])).
  { change (cleanupCache api s) with (transition api t PurgeCache s).
    rewrite transition_guarded, (guarded_free _ _ _ Hg).
    cbn [confirmation try_block].
    unfold bind at 1. unfold showConfirmDialog. rewrite Hd. cbn [negb when].
    unfold ret at 1.
    unfold cleanupCache_try. unfold bind at 1. unfold native at 1.
    cbn [world set_world set_enabling]. rewrite Hs.
    unfold bind at 1. unfold native at 1. cbn [world set_world]. rewrite Hp.
    unfold bind at 1.
    change (set_world w2 (set_world w1 (set_enabling true (set_world w0 s))))
      with (set_world w2 (set_enabling true s)).
    rewrite Hm, Hdown. cbn [when].
    unfold bind at 1. unfold ret at 1. rewrite Hq. cbn.
    reflexivity. }
  eexists. eexists. split; [exact Hrun |]. split.
  - cbn. rewrite filter_app, (Qq _ _ _ _ Hq). reflexivity.
  - cbn. rewrite (Kq _ _ _ _ Hq), (Km _ _ _ _ Hm). reflexivity.
Qed.

(** * Further properties of the transitions *)

(** ** Failures stay inside *)

Lemma confirmation_throws_only_with_dialog tr (s s' : State) e tr' :
  confirmation api tr s = (Throw e, s', tr') -> needs_confirmation tr = true.
Proof.
  destruct tr as [[|] | | | |]; cbn; intros H; try reflexivity; discriminate H.
Qed.

(** X1.  Whatever a native call, a probe or a refresh does, a transition
    settles normally; the one way a transition can reject is that its
    confirmation dialog itself rejects, before the guard is taken. *)
Theorem transition_contains_failures (tr : Transition) (s s' : State) c trace :
  transition api t tr s = (c, s', trace) ->
  c = Normal tt
  \/ (needs_confirmation tr = true
      /\ exists e, c = Throw e /\ confirmation api tr s = (Throw e, s', trace)).
Proof.
  intros Hrun. rewrite transition_guarded in Hrun.
  destruct (enabling s) eqn:Hg.
  - rewrite (guarded_held _ _ _ Hg) in Hrun. inversion Hrun. now left.
  - rewrite (guarded_free _ _ _ Hg) in Hrun.
    destruct (confirmation api tr s) as [[[[] | | e0] s0] t0] eqn:Ec.
    + destruct (try_block api t tr s (set_enabling true s0)) as [[[[] | | e] s1] t1];
        inversion Hrun; now left.
    + inversion Hrun. now left.
    + inversion Hrun; subst. right. split.
      * exact (confirmation_throws_only_with_dialog _ _ _ _ _ Ec).
      * now exists e0.
Qed.

(** ** The configuration write *)

Lemma discipline_of_quiet_keeps {A} R (m : M A) :
  quiet is_config_write m -> keeps desktopConfig m -> config_discipline R m.
Proof. intros Hq Hk s c s' trace H. left. split; eauto. Qed.

Lemma discipline_bind {A B} R (m : M A) (k : A -> M B) :
  quiet is_config_write m -> keeps desktopConfig m ->
  (forall a, config_discipline R (k a)) ->
  config_discipline R (bind m k).
Proof.
  intros Hq Hk Hd s c s' trace H. unfold bind in H.
  destruct (m s) as [[[a | | e] s1] t1] eqn:E1.
  - destruct (k a s1) as [[c2 s2] t2] eqn:E2. inversion H; subst.
    pose proof (Hq _ _ _ _ E1) as Q1. pose proof (Hk _ _ _ _ E1) as K1.
    destruct (Hd a _ _ _ _ E2) as [[Q2 K2] | [Hn (pre & v & -> & Qp & Hc & HR)]].
    + left. split; [now rewrite filter_app, Q1, Q2 | now rewrite K2].
    + right. split; [exact Hn |].
      exists (t1 ++ pre), v. rewrite app_assoc, filter_app, Q1, Qp, <- K1.
      repeat split; auto.
  - inversion H; subst. left. split; eauto.
  - inversion H; subst. left. split; eauto.
Qed.

Lemma discipline_setDesktopConfig (R : VirtualDriveConfig -> VirtualDriveConfig -> Prop) f :
  (forall cfg, R cfg (f cfg)) ->
  config_discipline (World:=World) (Rest:=Rest) R (setDesktopConfig f).
Proof.
  intros HR s c s' trace H. inversion H; subst. right. split; [now exists tt |].
  exists [], (f (virtualDriveConfig (desktopConfig s))). repeat split. apply HR.
Qed.

Ltac discipline :=
  unfold try_block, onCheckedChange_try, changeMountPoint_try,
    onDriveLetterChange_try, onCacheChange_try, cleanupCache_try;
  repeat first
    [ apply discipline_setDesktopConfig; intros; cbn; eauto
    | apply discipline_bind; [solve [frame] | solve [frame] | intros]
    | apply discipline_of_quiet_keeps; solve [frame] ].

Lemma try_block_discipline tr (render : State) :
  config_discipline (intended tr) (try_block api t tr render).
Proof. destruct tr; discipline. Qed.

Lemma confirmation_config_quiet tr :
  quiet (Rest:=Rest) is_config_write (confirmation api tr).
Proof. destruct tr; frame. Qed.

(** The shared analysis behind the two statements below. *)
Lemma transition_config_cases (tr : Transition) (s s' : State) c trace :
  transition api t tr s = (c, s', trace) ->
  (filter is_config_write trace = [] /\ desktopConfig s' = desktopConfig s)
  \/ exists pre v,
       trace = pre ++ [SetDesktopConfig v; SetEnabling false]
       /\ filter is_config_write pre = []
       /\ desktopConfig s' = mkDesktopConfig v (otherConfig (desktopConfig s))
       /\ (v = with_enabled false (virtualDriveConfig (desktopConfig s))
           \/ intended tr (virtualDriveConfig (desktopConfig s)) v).
Proof.
  intros Hrun. rewrite transition_guarded in Hrun.
  destruct (enabling s) eqn:Hg.
  - rewrite (guarded_held _ _ _ Hg) in Hrun. inversion Hrun. now left.
  - rewrite (guarded_free _ _ _ Hg) in Hrun.
    destruct (confirmation api tr s) as [[[[] | | e0] s0] t0] eqn:Ec;
      pose proof (confirmation_config_quiet tr _ _ _ _ Ec) as Q0;
      pose proof (confirmation_keeps_desktopConfig tr _ _ _ _ Ec) as K0.
    2, 3: inversion Hrun; subst; left; now split.
    destruct (try_block api t tr s (set_enabling true s0)) as [[c1 s1] t1] eqn:Eb.
    destruct (try_block_discipline tr s _ _ _ _ Eb)
      as [[Q1 K1] | [[a ->] (pre & v & -> & Qp & Hc & HR)]].
    + cbn in K1. rewrite K0 in K1.
      destruct c1 as [[] | | e]; inversion Hrun; subst.
      * left. split; [| exact K1].
        rewrite filter_app, Q0. cbn. now rewrite filter_app, Q1.
      * left. split; [| exact K1].
        rewrite filter_app, Q0. cbn. now rewrite filter_app, Q1.
      * right.
        exists (t0 ++ SetEnabling true :: t1 ++ [ConsoleError e; ErrorToast (message e)]),
          (with_enabled false (virtualDriveConfig (desktopConfig s))).
        rewrite K1. split; [| split; [| split]].
        -- repeat (rewrite <- app_assoc || rewrite <- app_comm_cons). reflexivity.
        -- rewrite filter_app, Q0. cbn. now rewrite filter_app, Q1.
        -- cbn. now rewrite K1.
        -- now left.
    + cbn in Hc, HR. rewrite K0 in Hc, HR.
      destruct a. inversion Hrun; subst. right.
      exists (t0 ++ SetEnabling true :: pre), v. split; [| split; [| split]].
      * repeat (rewrite <- app_assoc || rewrite <- app_comm_cons). reflexivity.
      * rewrite filter_app, Q0. cbn. exact Qp.
      * cbn. exact Hc.
      * now right.
Qed.


(** X3.  A transition changes only the field it is about.  The settings
    outside [virtualDriveConfig] never change; [mountPoint] changes only
    under a mount point or drive letter change; [cacheSizeInGi] only
    under a cache size change; and [enabled] only becomes [false], or
    [true] under an enabling toggle. *)
Theorem transition_touches_only_its_field (tr : Transition) (s s' : State) c trace :
  transition api t tr s = (c, s', trace) ->
  otherConfig (desktopConfig s') = otherConfig (desktopConfig s)
  /\ (mountPoint (virtualDriveConfig (desktopConfig s'))
      <> mountPoint (virtualDriveConfig (desktopConfig s)) ->
      tr = ChangeMountPoint \/ exists letter, tr = ChangeDriveLetter letter)
  /\ (cacheSizeInGi (virtualDriveConfig (desktopConfig s'))
      <> cacheSizeInGi (virtualDriveConfig (desktopConfig s)) ->
      exists size, tr = ChangeCacheSize size)
  /\ (enabled (virtualDriveConfig (desktopConfig s'))
      <> enabled (virtualDriveConfig (desktopConfig s)) ->
      enabled (virtualDriveConfig (desktopConfig s')) = false \/ tr = Toggle true).
Proof.
  intros Hrun.
  destruct (transition_config_cases tr s s' c trace Hrun)
    as [[_ ->] | (pre & v & _ & _ & -> & [-> | Hv])].
  - repeat split; intros H; now destruct H.
  - cbn. repeat split; try (intros H; now destruct H). intros _. now left.
  - cbn. destruct tr as [checked | | letter | size |]; cbn in Hv.
    + subst v. cbn. repeat split; try (intros H; now destruct H).
      intros _. destruct checked; [now right | now left].
    + destruct Hv as [path ->]. cbn.
      repeat split; try (intros H; now destruct H). intros _. now left.
    + subst v. cbn. repeat split; try (intros H; now destruct H).
      intros _. right. now exists letter.
    + subst v. cbn. repeat split; try (intros H; now destruct H).
      intros _. now exists size.
    + destruct Hv.
Qed.

(** ** The mount point check *)

(** X4.  Toggling and changing the cache size begin with the mount point
    check.  When the check fails, the run ends there: the invalid mount
    point error is reported, the guard is released, the drive is neither
    probed, restarted nor stopped, nothing is refreshed, and the
    configuration, [enabled] included, stays as it was. *)
Theorem invalid_mount_point_aborts
    (tr : Transition) (s s0 s1 : State) (t0 tv : Trace) :
  validates_first tr = true ->
  enabling s = false ->
  confirmation api tr s = (Normal tt, s0, t0) ->
  mountPointInvalid api s (set_enabling true s0) = (Normal true, s1, tv) ->
  transition api t tr s
  = (Normal tt, set_enabling false s1,
     t0 ++ SetEnabling true :: tv ++
       [ErrorToast (t "mounts.virtualDrive.errors.invalidMountPoint");
        SetEnabling false])
  /\ desktopConfig s1 = desktopConfig s
  /\ (tv = []
      \/ tv = [Native (VerifyUnixMountPath
                         (mountPoint (virtualDriveConfig (desktopConfig s))))]).
Proof.
  intros Hfirst Hg Hc Hv.
  destruct (mountPointInvalid_frame s) as (Kv & _ & _).
  split; [| split].
  - rewrite transition_guarded, (guarded_free _ _ _ Hg), Hc.
    destruct tr as [checked | | | size |]; try discriminate Hfirst;
      cbn [try_block]; unfold onCheckedChange_try, onCacheChange_try;
      unfold bind at 1; rewrite Hv; cbn [when];
      unfold bind at 1, errorToast, emit, return_; cbn;
      rewrite ?app_nil_r, <- ?app_assoc; reflexivity.
  - rewrite (Kv _ _ _ _ Hv). cbn.
    exact (confirmation_keeps_desktopConfig tr _ _ _ _ Hc).
  - exact (mountPointInvalid_calls _ _ _ _ _ Hv).
Qed.

(** ** Platform branches *)

Lemma quiet_guarded p (pre : M unit) (body : State -> M unit) :
  p (SetEnabling true) = false -> p (SetEnabling false) = false ->
  (forall e, p (ConsoleError e) = false) -> (forall m, p (ErrorToast m) = false) ->
  (forall v, p (SetDesktopConfig v) = false) ->
  quiet p pre -> (forall render, quiet p (body render)) ->
  quiet p (guarded pre body).
Proof. intros. unfold guarded. frame. Qed.

Lemma quiet_transition p tr :
  p (SetEnabling true) = false -> p (SetEnabling false) = false ->
  (forall e, p (ConsoleError e) = false) -> (forall m, p (ErrorToast m) = false) ->
  (forall v, p (SetDesktopConfig v) = false) ->
  quiet (Rest:=Rest) p (confirmation api tr) ->
  (forall render : State, quiet p (try_block api t tr render)) ->
  quiet (Rest:=Rest) p (transition api t tr).
Proof.
  intros H1 H2 H3 H4 H5 Hpre Hbody s c s' trace Hrun.
  rewrite transition_guarded in Hrun.
  exact (quiet_guarded p _ _ H1 H2 H3 H4 H5 Hpre Hbody _ _ _ _ Hrun).
Qed.

(** X5.  On win32 no transition ever calls [verifyUnixMountPath]. *)
Theorem win32_never_verifies_path (tr : Transition) (s s' : State) c trace :
  desktopAPI.platform api = "win32" ->
  transition api t tr s = (c, s', trace) ->
  filter is_verify trace = [].
Proof.
  intros Hwin.
  assert (Hmp : forall render : State, quiet is_verify (mountPointInvalid api render)).
  { intros render. unfold mountPointInvalid. rewrite Hwin. cbn. apply quiet_ret. }
  revert s c s' trace. apply quiet_transition; try reflexivity.
  - destruct tr; frame.
  - intros render.
    destruct tr; unfold try_block, onCheckedChange_try, changeMountPoint_try,
      onDriveLetterChange_try, onCacheChange_try, cleanupCache_try,
      isMountedQuery_refetch, availableDrivesQuery_refetch,
      cacheSizeQuery_refetch, availableCacheSizeQuery_refetch, errorToast;
      auto 40 with frame.
Qed.

(** X6.  Off win32 no transition ever calls [getAvailableDrives]: the
    drive enumeration query is refreshed without a native call. *)
Theorem only_win32_enumerates_drives (tr : Transition) (s s' : State) c trace :
  (desktopAPI.platform api =? "win32")%string = false ->
  transition api t tr s = (c, s', trace) ->
  filter is_enumerate trace = [].
Proof.
  intros Hnot.
  assert (Had : quiet (Rest:=Rest) is_enumerate (availableDrivesQuery_refetch api)).
  { unfold availableDrivesQuery_refetch. rewrite Hnot. frame. }
  revert s c s' trace. apply quiet_transition; try reflexivity.
  - destruct tr; frame.
  - intros render.
    destruct tr; unfold try_block, onCheckedChange_try, changeMountPoint_try,
      onDriveLetterChange_try, onCacheChange_try, cleanupCache_try,
      mountPointInvalid, isMountedQuery_refetch,
      cacheSizeQuery_refetch, availableCacheSizeQuery_refetch, errorToast;
      auto 40 with frame.
Qed.

(** ** Successful runs *)

Lemma refetches_settle (ps : list (M unit)) (s : State) :
  Forall settles ps -> exists s' tq, promise_all ps s = (Normal tt, s', tq).
Proof. intros H. exact (promise_all_settles ps H s). Qed.

Ltac tidy_trace :=
  repeat (rewrite <- app_assoc || rewrite <- app_comm_cons || rewrite app_nil_r
          || rewrite app_nil_l);
  try reflexivity.

(** X7.  Enabling succeeds when the mount point check passes,
    [restartVirtualDrive] resolves and the probe made after it reports
    the drive mounted: the mount state and drive queries are refreshed
    and then [enabled = true] is written over an otherwise unchanged
    configuration. *)
Theorem enable_success_persists_enabled
    (s s1 s3 : State) (w2 : World) (tv tm : Trace) (after : MountedResult) :
  enabling s = false ->
  mountPointInvalid api s (set_enabling true s) = (Normal false, s1, tv) ->
  desktopAPI.restartVirtualDrive api (world s1) = (Resolved tt, w2) ->
  isVirtualDriveMounted api (set_world w2 s1) = (Normal after, s3, tm) ->
  mounted after = true ->
  exists s4 tq,
    promise_all [isMountedQuery_refetch api; availableDrivesQuery_refetch api] s3
    = (Normal tt, s4, tq)
    /\ onCheckedChange api t true s
       = (Normal tt,
          set_enabling false (set_virtualDriveConfig (with_enabled true) s4),
          SetEnabling true :: tv ++ Native RestartVirtualDrive ::
            [Native IsVirtualDriveMounted; Native IsVirtualDriveActive] ++ tq ++
            [SetDesktopConfig (with_enabled true (virtualDriveConfig (desktopConfig s)));
             SetEnabling false])
    /\ desktopConfig s4 = desktopConfig s.
Proof.
  intros Hg Hv Hr Hm Hup.
  pose proof (isVirtualDriveMounted_calls _ _ _ _ Hm) as ->.
  destruct (refetches_settle
              [isMountedQuery_refetch api; availableDrivesQuery_refetch api] s3)
    as (s4 & tq & Hq).
  { repeat constructor; apply refetch_settles. }
  exists s4, tq.
  destruct (mountPointInvalid_frame s) as (Kv & _ & _).
  destruct isVirtualDriveMounted_frame as (Km & _ & _).
  assert (Kq : keeps desktopConfig
                 (promise_all
                    [isMountedQuery_refetch api; availableDrivesQuery_refetch api]))
    by frame.
  assert (Hcfg : desktopConfig s4 = desktopConfig s).
  { rewrite (Kq _ _ _ _ Hq), (Km _ _ _ _ Hm). cbn. now rewrite (Kv _ _ _ _ Hv). }
  split; [exact Hq | split; [| exact Hcfg]].
  change (onCheckedChange api t true s) with (transition api t (Toggle true) s).
  rewrite transition_guarded, (guarded_free _ _ _ Hg).
  cbn [confirmation negb and_then try_block]. rewrite bind_ret_l.
  cbn [when]. unfold ret at 1.
  unfold onCheckedChange_try. unfold bind at 1. rewrite Hv. cbn [when].
  unfold bind at 1. unfold ret at 1.
  unfold bind at 1. unfold bind at 1. unfold native at 1. rewrite Hr.
  unfold bind at 1. rewrite Hm, Hup. cbn [negb when]. unfold ret at 1.
  unfold bind at 1. rewrite Hq.
  unfold setDesktopConfig. rewrite Hcfg. cbn. tidy_trace.
Qed.

(** X8.  Disabling succeeds when the user confirms, the mount point
    check passes and [stopVirtualDrive] resolves: after the refresh,
    [enabled = false] is written.  The outcome of the stop is not
    verified: apart from the refresh of the queries no probe is made, and
    the write does not depend on what the refresh observed.  Unlike
    enabling, disabling trusts the call. *)
Theorem disable_success_persists_disabled
    (s s1 : State) (w0 w2 : World) (tv : Trace) :
  enabling s = false ->
  desktopAPI.showConfirmDialog api DisableDialog (world s) = (Resolved true, w0) ->
  mountPointInvalid api s (set_enabling true (set_world w0 s)) = (Normal false, s1, tv) ->
  desktopAPI.stopVirtualDrive api (world s1) = (Resolved tt, w2) ->
  exists s4 tq,
    promise_all [isMountedQuery_refetch api; availableDrivesQuery_refetch api]
      (set_world w2 s1)
    = (Normal tt, s4, tq)
    /\ onCheckedChange api t false s
       = (Normal tt,
          set_enabling false (set_virtualDriveConfig (with_enabled false) s4),
          ConfirmDialog DisableDialog :: SetEnabling true :: tv ++
            Native StopVirtualDrive :: tq ++
            [SetDesktopConfig (with_enabled false (virtualDriveConfig (desktopConfig s)));
             SetEnabling false])
    /\ desktopConfig s4 = desktopConfig s.
Proof.
  intros Hg Hd Hv Hs.
  destruct (refetches_settle
              [isMountedQuery_refetch api; availableDrivesQuery_refetch api]
              (set_world w2 s1))
    as (s4 & tq & Hq).
  { repeat constructor; apply refetch_settles. }
  exists s4, tq.
  destruct (mountPointInvalid_frame s) as (Kv & _ & _).
  assert (Kq : keeps desktopConfig
                 (promise_all
                    [isMountedQuery_refetch api; availableDrivesQuery_refetch api]))
    by frame.
  assert (Hcfg : desktopConfig s4 = desktopConfig s).
  { rewrite (Kq _ _ _ _ Hq). cbn. now rewrite (Kv _ _ _ _ Hv). }
  split; [exact Hq | split; [| exact Hcfg]].
  change (onCheckedChange api t false s) with (transition api t (Toggle false) s).
  rewrite transition_guarded, (guarded_free _ _ _ Hg).
  cbn [confirmation negb and_then try_block].
  unfold bind at 1. unfold bind at 1. unfold showConfirmDialog. rewrite Hd.
  cbn [negb when]. unfold ret at 1. cbn [when app]. unfold ret at 1. cbn [app].
  unfold onCheckedChange_try. unfold bind at 1. rewrite Hv. cbn [when].
  unfold bind at 1. unfold ret at 1.
  unfold bind at 1. unfold native at 1. rewrite Hs.
  unfold bind at 1. rewrite Hq.
  unfold setDesktopConfig. rewrite Hcfg. cbn. tidy_trace.
Qed.

(** ** Changing the drive letter *)

(** X9.  With the drive probed as not mounted, [onDriveLetterChange]
    persists the letter it is given without any check of the letter and
    without restarting anything: the probe and the refresh of the two
    queries are all that precedes the write. *)
Theorem drive_letter_persisted_when_unmounted
    (letter : string) (s s1 : State) (tm : Trace) (before : MountedResult) :
  enabling s = false ->
  isVirtualDriveMounted api (set_enabling true s) = (Normal before, s1, tm) ->
  mounted before = false ->
  exists s4 tq,
    promise_all [isMountedQuery_refetch api; availableDrivesQuery_refetch api] s1
    = (Normal tt, s4, tq)
    /\ onDriveLetterChange api letter s
       = (Normal tt,
          set_enabling false (set_virtualDriveConfig (with_mountPoint letter) s4),
          SetEnabling true ::
            [Native IsVirtualDriveMounted; Native IsVirtualDriveActive] ++ tq ++
            [SetDesktopConfig (with_mountPoint letter (virtualDriveConfig (desktopConfig s)));
             SetEnabling false])
    /\ desktopConfig s4 = desktopConfig s.
Proof.
  intros Hg Hm Hdown.
  pose proof (isVirtualDriveMounted_calls _ _ _ _ Hm) as ->.
  destruct (refetches_settle
              [isMountedQuery_refetch api; availableDrivesQuery_refetch api] s1)
    as (s4 & tq & Hq).
  { repeat constructor; apply refetch_settles. }
  exists s4, tq.
  destruct isVirtualDriveMounted_frame as (Km & _ & _).
  assert (Kq : keeps desktopConfig
                 (promise_all
                    [isMountedQuery_refetch api; availableDrivesQuery_refetch api]))
    by frame.
  assert (Hcfg : desktopConfig s4 = desktopConfig s).
  { now rewrite (Kq _ _ _ _ Hq), (Km _ _ _ _ Hm). }
  split; [exact Hq | split; [| exact Hcfg]].
  change (onDriveLetterChange api letter s)
    with (transition api t (ChangeDriveLetter letter) s).
  rewrite transition_guarded, (guarded_free _ _ _ Hg).
  cbn [confirmation try_block]. unfold ret at 1.
  unfold onDriveLetterChange_try. unfold bind at 1. rewrite Hm, Hdown. cbn [when].
  unfold bind at 1. unfold ret at 1.
  unfold bind at 1. rewrite Hq.
  unfold setDesktopConfig. rewrite Hcfg. cbn. tidy_trace.
Qed.

(** X10.  With the drive probed as mounted, [onDriveLetterChange]
    restarts it before anything is persisted and probes again.  If the
    drive is back, the letter is persisted after the refresh; if it is
    not, the letter is dropped, "Could not start virtual drive." is
    reported and [enabled = false] is written instead. *)
Theorem drive_letter_remounts_when_mounted
    (letter : string) (s s1 s3 : State) (w2 : World) (tm tm' : Trace)
    (before after : MountedResult) :
  enabling s = false ->
  isVirtualDriveMounted api (set_enabling true s) = (Normal before, s1, tm) ->
  mounted before = true ->
  desktopAPI.restartVirtualDrive api (world s1) = (Resolved tt, w2) ->
  isVirtualDriveMounted api (set_world w2 s1) = (Normal after, s3, tm') ->
  exists s4 tq,
    promise_all [isMountedQuery_refetch api; availableDrivesQuery_refetch api] s3
    = (Normal tt, s4, tq)
    /\ desktopConfig s3 = desktopConfig s
    /\ desktopConfig s4 = desktopConfig s
    /\ onDriveLetterChange api letter s
       = if mounted after
         then
           (Normal tt,
            set_enabling false (set_virtualDriveConfig (with_mountPoint letter) s4),
            SetEnabling true ::
              [Native IsVirtualDriveMounted; Native IsVirtualDriveActive;
               Native RestartVirtualDrive;
               Native IsVirtualDriveMounted; Native IsVirtualDriveActive] ++ tq ++
              [SetDesktopConfig
                 (with_mountPoint letter (virtualDriveConfig (desktopConfig s)));
               SetEnabling false])
         else
           (Normal tt,
            set_enabling false (set_virtualDriveConfig (with_enabled false) s3),
            [SetEnabling true;
             Native IsVirtualDriveMounted; Native IsVirtualDriveActive;
             Native RestartVirtualDrive;
             Native IsVirtualDriveMounted; Native IsVirtualDriveActive;
             ConsoleError (mkError "Could not start virtual drive.");
             ErrorToast "Could not start virtual drive.";
             SetDesktopConfig (with_enabled false (virtualDriveConfig (desktopConfig s)));
             SetEnabling false]).
Proof.
  intros Hg Hm Hup Hr Hm'.
  pose proof (isVirtualDriveMounted_calls _ _ _ _ Hm) as ->.
  pose proof (isVirtualDriveMounted_calls _ _ _ _ Hm') as ->.
  destruct (refetches_settle
              [isMountedQuery_refetch api; availableDrivesQuery_refetch api] s3)
    as (s4 & tq & Hq).
  { repeat constructor; apply refetch_settles. }
  exists s4, tq.
  destruct isVirtualDriveMounted_frame as (Km & _ & _).
  assert (Kq : keeps desktopConfig
                 (promise_all
                    [isMountedQuery_refetch api; availableDrivesQuery_refetch api]))
    by frame.
  assert (Hcfg3 : desktopConfig s3 = desktopConfig s).
  { rewrite (Km _ _ _ _ Hm'). cbn. now rewrite (Km _ _ _ _ Hm). }
  assert (Hcfg4 : desktopConfig s4 = desktopConfig s).
  { now rewrite (Kq _ _ _ _ Hq). }
  split; [exact Hq | split; [exact Hcfg3 | split; [exact Hcfg4 |]]].
  change (onDriveLetterChange api letter s)
    with (transition api t (ChangeDriveLetter letter) s).
  rewrite transition_guarded, (guarded_free _ _ _ Hg).
  cbn [confirmation try_block]. unfold ret at 1.
  unfold onDriveLetterChange_try. unfold bind at 1. rewrite Hm, Hup. cbn [when].
  unfold bind at 1. unfold bind at 1. unfold native at 1. rewrite Hr.
  unfold bind at 1. rewrite Hm'.
  destruct (mounted after); cbn [negb when].
  - unfold ret at 1. unfold bind at 1. rewrite Hq.
    unfold setDesktopConfig. rewrite Hcfg4. cbn. tidy_trace.
  - unfold throw. cbn. rewrite Hcfg3. reflexivity.
Qed.

(** ** Purging the cache, both ways *)

Lemma filter_nil_not_In {A} (f : A -> bool) (l : list A) (x : A) :
  filter f l = [] -> f x = true -> ~ In x l.
Proof.
  intros Hnil Hx Hin.
  assert (In x (filter f l)) by (apply filter_In; now split).
  rewrite Hnil in H. destruct H.
Qed.

(** X11.  After a confirmed purge in which [stopVirtualDrive] and
    [virtualDriveCleanupCache] resolve, the drive is restarted exactly
    when the probe made after those two calls reports it mounted.  The
    handler settles normally either way. *)
Theorem purge_restarts_iff_still_mounted
    (s s3 : State) (w0 w1 w2 : World) (tm : Trace) (now : MountedResult) :
  enabling s = false ->
  desktopAPI.showConfirmDialog api CleanupCacheDialog (world s) = (Resolved true, w0) ->
  desktopAPI.stopVirtualDrive api w0 = (Resolved tt, w1) ->
  desktopAPI.virtualDriveCleanupCache api w1 = (Resolved tt, w2) ->
  isVirtualDriveMounted api (set_world w2 (set_enabling true s)) = (Normal now, s3, tm) ->
  exists s' trace,
    cleanupCache api s = (Normal tt, s', trace)
    /\ (In (Native RestartVirtualDrive) trace <-> mounted now = true).
Proof.
  intros Hg Hd Hs Hp Hm.
  destruct (mounted now) eqn:Hnow.
  - pose proof (isVirtualDriveMounted_calls _ _ _ _ Hm) as ->.
    assert (Hrun : exists s' post,
               cleanupCache api s
               = (Normal tt, s',
                  [ConfirmDialog CleanupCacheDialog; SetEnabling true;
                   Native StopVirtualDrive; Native VirtualDriveCleanupCache;
                   Native IsVirtualDriveMounted; Native IsVirtualDriveActive;
                   Native RestartVirtualDrive] ++ post)).
    { change (cleanupCache api s) with (transition api t PurgeCache s).
      rewrite transition_guarded, (guarded_free _ _ _ Hg).
      cbn [confirmation try_block].
      unfold bind at 1. unfold showConfirmDialog. rewrite Hd. cbn [negb when].
      unfold ret at 1.
      unfold cleanupCache_try. unfold bind at 1. unfold native at 1.
      cbn [world set_world set_enabling]. rewrite Hs.
      unfold bind at 1. unfold native at 1. cbn [world set_world]. rewrite Hp.
      unfold bind at 1.
      change (set_world w2 (set_world w1 (set_enabling true (set_world w0 s))))
        with (set_world w2 (set_enabling true s)).
      rewrite Hm, Hnow. cbn [when].
      unfold bind at 1. unfold native at 1.
      destruct (desktopAPI.restartVirtualDrive api (world s3)) as [[[] | e] w4].
      - destruct (refetches_settle
                    [cacheSizeQuery_refetch api; isMountedQuery_refetch api;
                     availableDrivesQuery_refetch api] (set_world w4 s3))
          as (s4 & tq & Hq).
        { repeat constructor; apply refetch_settles. }
        rewrite Hq. cbn. eexists. exists (tq ++ [SetEnabling false]).
        tidy_trace.
      - cbn. eexists. eexists. reflexivity. }
    destruct Hrun as (s' & post & Hrun). eexists. eexists. split; [exact Hrun |].
    split; [reflexivity |]. intros _. cbn. tauto.
  - destruct (purge_restart_follows_late_probe s s3 w0 w1 w2 tm now Hg Hd Hs Hp Hm Hnow)
      as (s' & trace & Hrun & Hquiet & _).
    exists s', trace. split; [exact Hrun |]. split; [| discriminate].
    intros Hin. exfalso.
    exact (filter_nil_not_In is_restart trace (Native RestartVirtualDrive)
             Hquiet eq_refl Hin).
Qed.

(** ** Handlers that overlap *)

(** *** Run without interruption *)

Lemma prepend_nil {A} (r : Res World Rest A) : prepend [] r = r.
Proof. now destruct r. Qed.

Lemma complete_prepend {A} (t0 : Trace) (r : Res World Rest A) :
  complete (prepend t0 r)
  = match complete r with (c, s, tr) => (c, s, t0 ++ tr) end.
Proof.
  destruct r as [c s tr | s tr resume]; cbn; [reflexivity |].
  destruct (complete (resume s)) as [[c s1] t1]. now rewrite app_assoc.
Qed.

Lemma complete_bind_res {A B} (r : Res World Rest A) (k : A -> R World Rest B) :
  complete (bind_res r k)
  = match complete r with
    | (Normal a, s1, t1) =>
        match complete (k a s1) with (c, s2, t2) => (c, s2, t1 ++ t2) end
    | (Return, s1, t1) => (Return, s1, t1)
    | (Throw e, s1, t1) => (Throw e, s1, t1)
    end.
Proof.
  induction r as [[a | | e] s tr | s tr resume IH]; cbn;
    try reflexivity.
  - apply complete_prepend.
  - rewrite IH.
    destruct (complete (resume s)) as [[[a | | e] s1] t1]; try reflexivity.
    destruct (complete (k a s1)) as [[c s2] t2]. now rewrite app_assoc.
Qed.

Lemma complete_try_catch_res {A} (r : Res World Rest A) handler :
  complete (try_catch_res r handler)
  = match complete r with
    | (Throw e, s1, t1) =>
        match complete (handler e s1) with (c, s2, t2) => (c, s2, t1 ++ t2) end
    | other => other
    end.
Proof.
  induction r as [[a | | e] s tr | s tr resume IH]; cbn;
    try reflexivity.
  - apply complete_prepend.
  - rewrite IH.
    destruct (complete (resume s)) as [[[a | | e] s1] t1]; try reflexivity.
    destruct (complete (handler e s1)) as [[c s2] t2]. now rewrite app_assoc.
Qed.

Lemma complete_after_finally {A} (c : Completion A) (f : Res World Rest unit) :
  complete (after_finally c f)
  = match complete f with
    | (Normal _, s2, t2) => (c, s2, t2)
    | (Return, s2, t2) => (Return, s2, t2)
    | (Throw e, s2, t2) => (Throw e, s2, t2)
    end.
Proof.
  induction f as [[a | | e] s tr | s tr resume IH]; cbn; try reflexivity.
  rewrite IH. now destruct (complete (resume s)) as [[[a | | e] s1] t1].
Qed.

Lemma complete_try_finally_res {A} (r : Res World Rest A) final :
  complete (try_finally_res r final)
  = match complete r with
    | (c, s1, t1) =>
        match complete (final s1) with
        | (Normal _, s2, t2) => (c, s2, t1 ++ t2)
        | (Return, s2, t2) => (Return, s2, t1 ++ t2)
        | (Throw e, s2, t2) => (Throw e, s2, t1 ++ t2)
        end
    end.
Proof.
  induction r as [c s tr | s tr resume IH]; cbn.
  - rewrite complete_prepend, complete_after_finally.
    now destruct (complete (final s)) as [[[a | | e] s2] t2].
  - rewrite IH. destruct (complete (resume s)) as [[c s1] t1].
    destruct (complete (final s1)) as [[[a | | e] s2] t2];
      now rewrite app_assoc.
Qed.

Lemma complete_async_function_res (r : Res World Rest unit) :
  complete (async_function_res r)
  = match complete r with
    | (Return, s1, t1) => (Normal tt, s1, t1)
    | other => other
    end.
Proof.
  induction r as [[a | | e] s tr | s tr resume IH]; cbn; try reflexivity.
  rewrite IH. now destruct (complete (resume s)) as [[[a | | e] s1] t1].
Qed.

Lemma sequential_lift {A} (m : M A) : sequential_of (lift m) m.
Proof. intros s. unfold lift. now destruct (m s) as [[c s1] t1]. Qed.

Lemma sequential_await {A} (m : M A) : sequential_of (await m) m.
Proof. intros s. unfold await, lift. cbn. now destruct (m s) as [[c s1] t1]. Qed.

Lemma sequential_bind {A B} (r : R World Rest A) (m : M A)
    (k : A -> R World Rest B) (k' : A -> M B) :
  sequential_of r m -> (forall a, sequential_of (k a) (k' a)) ->
  sequential_of (bindR r k) (bind m k').
Proof.
  intros Hr Hk s. unfold bindR, bind. rewrite complete_bind_res, Hr.
  destruct (m s) as [[[a | | e] s1] t1]; try reflexivity.
  now rewrite Hk.
Qed.

Lemma sequential_when c (r : R World Rest unit) (m : M unit) :
  sequential_of r m -> sequential_of (whenR c r) (when c m).
Proof. intros H. destruct c; cbn; [exact H | apply sequential_lift]. Qed.

Lemma sequential_and_then c (r : R World Rest bool) (m : M bool) :
  sequential_of r m -> sequential_of (and_thenR c r) (and_then c m).
Proof. intros H. destruct c; cbn; [exact H | apply sequential_lift]. Qed.

Lemma sequential_if {A} (c : bool) (r r' : R World Rest A) (m m' : M A) :
  sequential_of r m -> sequential_of r' m' ->
  sequential_of (if c then r else r') (if c then m else m').
Proof. now destruct c. Qed.

Lemma sequential_try_catch {A} (r : R World Rest A) (m : M A) h h' :
  sequential_of r m -> (forall e, sequential_of (h e) (h' e)) ->
  sequential_of (try_catchR r h) (try_catch m h').
Proof.
  intros Hr Hh s. unfold try_catchR, try_catch.
  rewrite complete_try_catch_res, Hr.
  destruct (m s) as [[[a | | e] s1] t1]; try reflexivity.
  now rewrite Hh.
Qed.

Lemma sequential_try_finally {A} (r : R World Rest A) (m : M A) f f' :
  sequential_of r m -> sequential_of f f' ->
  sequential_of (try_finallyR r f) (try_finally m f').
Proof.
  intros Hr Hf s. unfold try_finallyR, try_finally.
  rewrite complete_try_finally_res, Hr.
  destruct (m s) as [[c s1] t1]. now rewrite Hf.
Qed.

Lemma sequential_async_function (r : R World Rest unit) (m : M unit) :
  sequential_of r m -> sequential_of (async_functionR r) (async_function m).
Proof.
  intros Hr s. unfold async_functionR, async_function.
  now rewrite complete_async_function_res, Hr.
Qed.

Ltac sequential :=
  repeat first
    [ match goal with |- forall _, _ => intro end
    | apply sequential_lift
    | apply sequential_await
    | apply sequential_bind
    | apply sequential_when
    | apply sequential_and_then
    | apply sequential_if
    | apply sequential_try_catch
    | apply sequential_try_finally
    | apply sequential_async_function ].

Lemma try_block_R_sequential tr (render : State) :
  sequential_of (try_block_R api t tr render) (try_block api t tr render).
Proof.
  destruct tr; cbn [try_block_R try_block];
    unfold onCheckedChange_try_R, onCheckedChange_try,
      changeMountPoint_try_R, changeMountPoint_try,
      onDriveLetterChange_try_R, onDriveLetterChange_try,
      onCacheChange_try_R, onCacheChange_try,
      cleanupCache_try_R, cleanupCache_try,
      mountPointInvalid_R, mountPointInvalid;
    sequential.
Qed.

Lemma confirmation_R_sequential tr :
  sequential_of (Rest:=Rest) (confirmation_R api tr) (confirmation api tr).
Proof. destruct tr; cbn [confirmation_R confirmation]; sequential. Qed.

(** Resumed at once at each of its [await]s, a handler does what the
    sequential handler does. *)
Lemma transition_R_sequential tr (s : State) :
  complete (transition_R api t tr s) = transition api t tr s.
Proof.
  rewrite transition_guarded. revert s.
  change (sequential_of (Rest:=Rest) (transition_R api t tr)
            (guarded (confirmation api tr) (try_block api t tr))).
  unfold transition_R, guarded. sequential.
  - apply confirmation_R_sequential.
  - apply try_block_R_sequential.
Qed.

(** *** The entry test *)

Lemma transition_R_held tr (s : State) :
  enabling s = true -> transition_R api t tr s = Now (Normal tt) s [].
Proof.
  intros H. unfold transition_R, async_functionR, bindR. cbn.
  rewrite H. reflexivity.
Qed.

Lemma async_function_res_prepend (t0 : Trace) (r : Res World Rest unit) :
  async_function_res (prepend t0 r) = prepend t0 (async_function_res r).
Proof. destruct r as [[a | | e] s tr | s tr resume]; reflexivity. Qed.

(** With the guard free the handler runs its confirmation, takes the
    guard and enters its [try] statement. *)
Lemma transition_R_free tr (s : State) :
  enabling s = false ->
  transition_R api t tr s
  = async_function_res
      (bind_res (confirmation_R api tr s)
         (fun _ s1 =>
            prepend [SetEnabling true]
              (try_finally_res
                 (try_catch_res (try_block_R api t tr s (set_enabling true s1))
                    (fun e => lift (catch_block e)))
                 (lift (setEnabling false))))).
Proof.
  intros H. unfold transition_R, async_functionR, bindR. cbn.
  rewrite H. cbn. now rewrite !prepend_nil.
Qed.

(** *** Code that leaves the guard alone *)

Lemma calm_prepend {A} (t0 : Trace) (r : Res World Rest A) :
  filter is_guard_write t0 = [] -> calm r -> calm (prepend t0 r).
Proof.
  intros H0. destruct r as [c s tr | s tr resume]; cbn;
    rewrite filter_app, H0; tauto.
Qed.

Lemma calm_bind_res {A B} (r : Res World Rest A) (k : A -> R World Rest B) :
  calm r -> (forall a, calmR (k a)) -> calm (bind_res r k).
Proof.
  intros Hr Hk.
  induction r as [[a | | e] s tr | s tr resume IH]; cbn in *; try exact Hr.
  - destruct Hr as [Hs Htr]. apply calm_prepend; [exact Htr | now apply Hk].
  - destruct Hr as (Hs & Htr & Hres). repeat split; auto.
Qed.

Lemma calmR_lift {A} (m : M A) :
  keeps enabling m -> quiet is_guard_write m -> calmR (lift m).
Proof.
  intros Hk Hq s Hs. unfold lift.
  destruct (m s) as [[c s1] t1] eqn:E. cbn.
  rewrite (Hk _ _ _ _ E), (Hq _ _ _ _ E). auto.
Qed.

Lemma calmR_await {A} (m : M A) :
  keeps enabling m -> quiet is_guard_write m -> calmR (await m).
Proof.
  intros Hk Hq s Hs. cbn. repeat split; auto.
  intros s' Hs'. now apply calmR_lift.
Qed.

Lemma calmR_bind {A B} (m : R World Rest A) (k : A -> R World Rest B) :
  calmR m -> (forall a, calmR (k a)) -> calmR (bindR m k).
Proof. intros Hm Hk s Hs. apply calm_bind_res; auto. Qed.

Lemma calmR_when c (body : R World Rest unit) : calmR body -> calmR (whenR c body).
Proof.
  intros Hb. destruct c; cbn; [exact Hb |].
  apply calmR_lift; auto with frame.
Qed.

Lemma calmR_and_then c (m : R World Rest bool) : calmR m -> calmR (and_thenR c m).
Proof.
  intros Hm. destruct c; cbn; [exact Hm |].
  apply calmR_lift; auto with frame.
Qed.

Lemma calmR_if {A} (c : bool) (a b : R World Rest A) :
  calmR a -> calmR b -> calmR (if c then a else b).
Proof. now destruct c. Qed.

Lemma calm_try_catch_res {A} (r : Res World Rest A) handler :
  calm r -> (forall e, calmR (handler e)) -> calm (try_catch_res r handler).
Proof.
  intros Hr Hh.
  induction r as [[a | | e] s tr | s tr resume IH]; cbn in *; try exact Hr.
  - destruct Hr as [Hs Htr]. apply calm_prepend; [exact Htr | now apply Hh].
  - destruct Hr as (Hs & Htr & Hres). repeat split; auto.
Qed.

Ltac calm_by_frame :=
  repeat first
    [ match goal with |- forall _, _ => intro end
    | apply calmR_bind
    | apply calmR_when
    | apply calmR_and_then
    | apply calmR_if
    | apply calmR_lift; solve [frame]
    | apply calmR_await; solve [frame] ].

Lemma try_block_R_calm tr (render : State) : calmR (try_block_R api t tr render).
Proof.
  destruct tr; cbn [try_block_R];
    unfold onCheckedChange_try_R, changeMountPoint_try_R,
      onDriveLetterChange_try_R, onCacheChange_try_R, cleanupCache_try_R,
      mountPointInvalid_R;
    calm_by_frame.
Qed.

Lemma catch_block_calm e : calmR (World:=World) (Rest:=Rest) (lift (catch_block e)).
Proof. apply calmR_lift; frame. Qed.

(** *** The guarded part releases the guard *)

Lemma releasing_try_finally (r : Res World Rest unit) :
  calm r -> releasing (try_finally_res r (lift (setEnabling false))).
Proof.
  induction r as [c s tr | s tr resume IH]; cbn.
  - intros [Hs Htr]. rewrite filter_app, Htr. auto.
  - intros (Hs & Htr & Hres). repeat split; auto.
Qed.

Lemma releasing_async_function (r : Res World Rest unit) :
  releasing r -> releasing (async_function_res r).
Proof.
  induction r as [[a | | e] s tr | s tr resume IH]; cbn; auto.
  intros (Hs & Htr & Hres). repeat split; auto.
Qed.

Lemma acquiring_prepend (r : Res World Rest unit) :
  releasing r -> acquiring (prepend [SetEnabling true] r).
Proof.
  destruct r as [c s tr | s tr resume]; cbn.
  - tauto.
  - intros (Hs & Htr & Hres). rewrite Htr. auto.
Qed.

Lemma confirmation_R_none tr (s : State) :
  needs_confirmation tr = false ->
  confirmation_R api tr s = Now (Normal tt) s [].
Proof. destruct tr as [[] | | | |]; cbn; intros H; try discriminate; reflexivity. Qed.

(** A transition without a dialog, entered with the guard free, holds
    the guard when it first suspends. *)
Lemma transition_R_acquiring tr (s : State) :
  needs_confirmation tr = false -> enabling s = false ->
  acquiring (transition_R api t tr s).
Proof.
  intros Hn Hs. rewrite (transition_R_free _ _ Hs), (confirmation_R_none _ _ Hn).
  cbn [bind_res]. rewrite prepend_nil, async_function_res_prepend.
  apply acquiring_prepend, releasing_async_function, releasing_try_finally.
  apply calm_try_catch_res.
  - now apply try_block_R_calm.
  - intros e. apply catch_block_calm.
Qed.

(** *** Schedules of transitions without a dialog *)

Lemma holds_guard_of_filter (emitted : Trace) :
  filter is_guard_write emitted = [SetEnabling true] -> holds_guard emitted = true.
Proof. intros H. unfold holds_guard. now rewrite H. Qed.

Lemma act_keeps_single_flight a (pool : Pool World Rest) (s : State) :
  enters_without_dialog a = true ->
  single_flight pool s ->
  match act api t a pool s with (pool1, s1, _) => single_flight pool1 s1 end.
Proof.
  intros Ha [[Hp Hs] | (task & Hp & Hs & Hown & Hk)]; subst pool.
  - destruct a as [tr | i]; cbn [act].
    + cbn in Ha. apply negb_true_iff in Ha.
      pose proof (transition_R_acquiring tr s Ha Hs) as Hacq.
      destruct (transition_R api t tr s) as [c s1 t1 | s1 t1 resume]; cbn in *.
      * left. auto.
      * right. destruct Hacq as (H1 & H2 & H3).
        eexists. split; [reflexivity |]. cbn. auto.
    + destruct i; cbn; left; auto.
  - destruct a as [tr | i]; cbn [act].
    + rewrite (transition_R_held tr s Hs). cbn.
      right. exists task. auto.
    + destruct i as [| i]; cbn.
      * pose proof (Hk s Hs) as Hrel.
        destruct (continuation task s) as [c s1 t1 | s1 t1 resume]; cbn in *.
        -- left. tauto.
        -- right. destruct Hrel as (H1 & H2 & H3).
           eexists. split; [reflexivity |]. cbn.
           rewrite filter_app, Hown, H2. auto.
      * destruct i; cbn; right; exists task; auto.
Qed.

Lemma run_schedule_keeps_single_flight acts :
  forall (pool : Pool World Rest) (s : State),
    forallb enters_without_dialog acts = true ->
    single_flight pool s ->
    match run_schedule api t acts pool s with
    | (pool1, s1, _) => single_flight pool1 s1
    end.
Proof.
  induction acts as [| a acts IH]; intros pool s Hacts Hinv; cbn.
  - exact Hinv.
  - cbn in Hacts. apply andb_true_iff in Hacts. destruct Hacts as [Ha Hacts].
    pose proof (act_keeps_single_flight a pool s Ha Hinv) as H1.
    destruct (act api t a pool s) as [[pool1 s1] t1].
    specialize (IH pool1 s1 Hacts H1).
    now destruct (run_schedule api t acts pool1 s1) as [[pool2 s2] t2].
Qed.

(** *** Release on every exit path *)

Lemma released_prepend (t0 : Trace) (r : Res World Rest unit) :
  released r -> released (prepend t0 r).
Proof.
  destruct r as [c s tr | s tr resume]; cbn; [| auto].
  intros [Hs [pre Hpre]]. split; [exact Hs |].
  exists (t0 ++ pre). now rewrite Hpre, app_assoc.
Qed.

Lemma released_try_finally (r : Res World Rest unit) :
  released (try_finally_res r (lift (setEnabling false))).
Proof.
  induction r as [c s tr | s tr resume IH]; cbn; [| auto].
  split; [reflexivity | now exists tr].
Qed.

Lemma releases_of_released acquired (r : Res World Rest unit) :
  released r -> releases_if_acquired acquired r.
Proof.
  revert acquired.
  induction r as [c s tr | s tr resume IH]; cbn; intros acquired H; auto.
Qed.

Lemma releases_bind_res {A} (r : Res World Rest A) (k : A -> R World Rest unit) :
  no_acquire r -> (forall a s, released (k a s)) ->
  releases_if_acquired false (bind_res r k).
Proof.
  intros Hr Hk.
  induction r as [[a | | e] s tr | s tr resume IH]; cbn in *.
  - apply releases_of_released, released_prepend, Hk.
  - rewrite Hr. discriminate.
  - rewrite Hr. discriminate.
  - destruct Hr as [Htr Hres]. rewrite Htr. cbn. auto.
Qed.

Lemma releases_async_function acquired (r : Res World Rest unit) :
  releases_if_acquired acquired r ->
  releases_if_acquired acquired (async_function_res r).
Proof.
  revert acquired.
  induction r as [[a | | e] s tr | s tr resume IH]; cbn; auto.
Qed.

Lemma confirmation_R_no_acquire tr (s : State) :
  no_acquire (confirmation_R api tr s).
Proof.
  destruct tr as [[] | | | |]; cbn; try reflexivity;
    (split; [reflexivity |]); intros s';
    unfold lift, showConfirmDialog;
    destruct (desktopAPI.showConfirmDialog api _ (world s')) as [[[] | e] w];
    reflexivity.
Qed.

Lemma transition_R_releases tr (s : State) :
  releases_if_acquired false (transition_R api t tr s).
Proof.
  destruct (enabling s) eqn:Hs.
  - rewrite (transition_R_held _ _ Hs). cbn. discriminate.
  - rewrite (transition_R_free _ _ Hs).
    apply releases_async_function, releases_bind_res.
    + apply confirmation_R_no_acquire.
    + intros _ s1. apply released_prepend, released_try_finally.
Qed.


End Properties.

(** ** The cache step set *)

(** C9.  The step set is [[10]] when the budget is zero, negative or
    unknown: the generator returns [[10]] for [0], for every negative
    budget and for [NaN] whatever its ladder, and while the budget query
    has not succeeded the component offers [[10]] whatever generator it
    was given, that is, without consulting it.  A successful query of
    less than one GiB falls under the first two cases. *)
Theorem cacheSteps_default_floor (ladder : list Z) :
  generateCacheSteps ladder (JInt 0) = [10]
  /\ (forall b, b < 0 -> generateCacheSteps ladder (JInt b) = [10])
  /\ generateCacheSteps ladder JNaN = [10]
  /\ (forall (generator : jsnumber -> list Z) (q : QueryState Z),
        isSuccess q = false -> cacheSteps generator q = [10])
  /\ (forall (q : QueryState Z) (bytes : Z),
        isSuccess q = true -> data q = Some bytes -> bytes < 1024 * 1024 * 1024 ->
        cacheSteps (generateCacheSteps ladder) q = [10]).
Proof.
  repeat split.
  - intros b Hb. unfold generateCacheSteps.
    destruct (Z.leb_spec b 0); [reflexivity | lia].
  - intros generator q Hq. unfold cacheSteps. now rewrite Hq.
  - intros q bytes Hq Hd Hb. unfold cacheSteps. rewrite Hq, Hd. cbn [negb].
    unfold generateCacheSteps.
    assert (bytes / (1024 * 1024 * 1024) <= 0).
    { assert (bytes / (1024 * 1024 * 1024) < 1)
        by (apply Z.div_lt_upper_bound; lia).
      lia. }
    destruct (Z.leb_spec (bytes / (1024 * 1024 * 1024)) 0); [reflexivity | lia].
Qed.

(** * The properties on concrete runs *)

Lemma uninterrupted_guard_bracket_witness :
  enabling (set_enabling true Sim.up) = true
  /\ transition Sim.win32 Sim.t PurgeCache (set_enabling true Sim.up)
     = (Normal tt, set_enabling true Sim.up, []).
Proof.
  split; [reflexivity |].
  apply (proj1 (uninterrupted_guard_bracket Sim.win32 Sim.t PurgeCache
                  (set_enabling true Sim.up))).
  reflexivity.
Defined.



Lemma mounted_is_conjunction_witness :
  desktopAPI.isVirtualDriveMounted Sim.win32 (world Sim.up) = (Resolved true, world Sim.up)
  /\ desktopAPI.isVirtualDriveActive Sim.win32 (world Sim.up) = (Resolved true, world Sim.up)
  /\ isVirtualDriveMounted Sim.win32 Sim.up
     = (Normal {| mounted := true |}, Sim.up,
        [Native IsVirtualDriveMounted; Native IsVirtualDriveActive]).
Proof.
  split; [reflexivity | split; [reflexivity |]].
  exact (proj1 (mounted_is_conjunction Sim.win32 Sim.up true true
                  (world Sim.up) (world Sim.up) eq_refl eq_refl)).
Defined.

Lemma declined_disable_changes_nothing_witness :
  enabling Sim.declining = false
  /\ desktopAPI.showConfirmDialog Sim.win32 DisableDialog (world Sim.declining)
     = (Resolved false, world Sim.declining)
  /\ onCheckedChange Sim.win32 Sim.t false Sim.declining
     = (Normal tt, Sim.declining, [ConfirmDialog DisableDialog]).
Proof.
  split; [reflexivity | split; [reflexivity |]].
  exact (declined_disable_changes_nothing Sim.win32 Sim.t Sim.declining
           (world Sim.declining) eq_refl eq_refl).
Defined.

Lemma cancelled_picker_changes_nothing_witness :
  enabling Sim.down = false
  /\ desktopAPI.selectDirectory Sim.linux false (world Sim.down)
     = (Resolved Sim.nothingPicked, world Sim.down)
  /\ cancelled Sim.nothingPicked = true
  /\ changeMountPoint Sim.linux Sim.t Sim.down
     = (Normal tt, Sim.down,
        [SetEnabling true; Native (SelectDirectory false); SetEnabling false]).
Proof.
  split; [reflexivity | split; [reflexivity | split; [reflexivity |]]].
  exact (cancelled_picker_changes_nothing Sim.linux Sim.t Sim.down Sim.nothingPicked
           (world Sim.down) eq_refl eq_refl (or_introl eq_refl)).
Defined.

Lemma enable_reverifies_mount_witness :
  desktopAPI.restartVirtualDrive Sim.win32 (world Sim.stuck)
  = (Resolved tt, world Sim.stuck)
  /\ isVirtualDriveMounted Sim.win32 (set_enabling true Sim.stuck)
     = (Normal {| mounted := false |}, set_enabling true Sim.stuck,
        [Native IsVirtualDriveMounted; Native IsVirtualDriveActive])
  /\ onCheckedChange Sim.win32 Sim.t true Sim.stuck
     = (Normal tt,
        set_virtualDriveConfig (with_enabled false) Sim.stuck,
        [SetEnabling true; Native RestartVirtualDrive;
         Native IsVirtualDriveMounted; Native IsVirtualDriveActive;
         ConsoleError (mkError "Could not start virtual drive.");
         ErrorToast "Could not start virtual drive.";
         SetDesktopConfig (Sim.config false "X:"); SetEnabling false]).
Proof.
  split; [reflexivity | split; [reflexivity |]].
  exact (proj1 (enable_reverifies_mount Sim.win32 Sim.t Sim.stuck
                  (set_enabling true Sim.stuck) (set_enabling true Sim.stuck)
                  (world Sim.stuck) []
                  [Native IsVirtualDriveMounted; Native IsVirtualDriveActive]
                  {| mounted := false |}
                  eq_refl eq_refl eq_refl eq_refl eq_refl)).
Defined.

Lemma failure_forces_disabled_witness :
  confirmation Sim.win32 (Toggle true) Sim.broken = (Normal tt, Sim.broken, [])
  /\ try_block Sim.win32 Sim.t (Toggle true) Sim.broken (set_enabling true Sim.broken)
     = (Throw (mkError "Mount failed."), set_enabling true Sim.broken,
        [Native RestartVirtualDrive])
  /\ transition Sim.win32 Sim.t (Toggle true) Sim.broken
     = (Normal tt,
        set_virtualDriveConfig (with_enabled false) Sim.broken,
        [SetEnabling true; Native RestartVirtualDrive;
         ConsoleError (mkError "Mount failed."); ErrorToast "Mount failed.";
         SetDesktopConfig (Sim.config false "X:"); SetEnabling false]).
Proof.
  split; [reflexivity | split; [reflexivity |]].
  exact (proj1 (failure_forces_disabled Sim.win32 Sim.t (Toggle true) Sim.broken
                  Sim.broken (set_enabling true Sim.broken) []
                  [Native RestartVirtualDrive] (mkError "Mount failed.")
                  eq_refl eq_refl eq_refl)).
Defined.

Lemma cache_change_persists_any_size_witness :
  in_step_set Sim.steps (parseInt "999") = false
  /\ exists s3 tq,
       promise_all
         [isMountedQuery_refetch Sim.win32; availableDrivesQuery_refetch Sim.win32;
          availableCacheSizeQuery_refetch Sim.win32] (set_enabling true Sim.down)
       = (Normal tt, s3, tq)
       /\ onCacheChange Sim.win32 Sim.t "999" Sim.down
          = (Normal tt,
             set_enabling false
               (set_virtualDriveConfig (with_cacheSizeInGi (parseInt "999")) s3),
             SetEnabling true :: [] ++
               [Native IsVirtualDriveMounted; Native IsVirtualDriveActive] ++ tq ++
               [SetDesktopConfig
                  (with_cacheSizeInGi (parseInt "999")
                     (virtualDriveConfig (desktopConfig Sim.down)));
                SetEnabling false])
       /\ virtualDriveConfig (desktopConfig s3)
          = virtualDriveConfig (desktopConfig Sim.down).
Proof.
  split; [reflexivity |].
  exact (cache_change_persists_any_size Sim.win32 Sim.t "999" Sim.down
           (set_enabling true Sim.down) (set_enabling true Sim.down) []
           [Native IsVirtualDriveMounted; Native IsVirtualDriveActive]
           {| mounted := false |}
           eq_refl eq_refl eq_refl eq_refl).
Defined.

Lemma cacheSteps_default_floor_witness :
  -5 < 0
  /\ generateCacheSteps Sim.ladder (JInt (-5)) = [10]
  /\ cacheSteps (generateCacheSteps Sim.ladder) (mkQueryState None false) = [10]
  /\ cacheSteps (generateCacheSteps Sim.ladder) (mkQueryState (Some 4096) true) = [10].
Proof.
  destruct (cacheSteps_default_floor Sim.ladder) as (_ & Hneg & _ & Hunknown & Hsmall).
  split; [lia |].
  split; [apply Hneg; lia |].
  split; [apply Hunknown; reflexivity |].
  apply (Hsmall _ 4096); [reflexivity | reflexivity | lia].
Defined.

(** C3, as the design document states it, fails.  With the step set
    [[10]], the size ["999"] is outside the set; [onCacheChange] none the
    less issues native calls and persists 999. *)
Lemma out_of_set_size_is_persisted :
  Sim.steps = [10]
  /\ ~ rejects_out_of_set Sim.win32 Sim.t Sim.steps "999" Sim.down.
Proof.
  split; [reflexivity |].
  intros H. specialize (H eq_refl).
  destruct (H _ _ _ eq_refl) as [Hnative _].
  discriminate Hnative.
Qed.

(** C2.  Purging the cache of a drive that is enabled and mounted, on a
    service where stop, purge and restart all succeed: the mounted probe
    is made after [stopVirtualDrive], so it reports the drive down,
    [restartVirtualDrive] is never called, and the refreshed mount state
    is [false] while the configuration still says enabled. *)
Theorem purge_does_not_restore_mount :
  isVirtualDriveMounted Sim.win32 Sim.up_unseen
  = (Normal {| mounted := true |}, Sim.up_unseen,
     [Native IsVirtualDriveMounted; Native IsVirtualDriveActive])
  /\ exists s',
       cleanupCache Sim.win32 Sim.up_unseen
       = (Normal tt, s',
          [ConfirmDialog CleanupCacheDialog; SetEnabling true;
           Native StopVirtualDrive; Native VirtualDriveCleanupCache;
           Native IsVirtualDriveMounted; Native IsVirtualDriveActive;
           Refetch KVirtualDriveCacheSize; Native VirtualDriveCacheSize;
           Refetch KIsVirtualDriveMounted;
           Native IsVirtualDriveMounted; Native IsVirtualDriveActive;
           Refetch KGetAvailableDrives; Native GetAvailableDrives;
           SetEnabling false])
       /\ data (isMountedQuery s') = Some {| mounted := false |}
       /\ isVirtualDriveMounted Sim.win32 s'
          = (Normal {| mounted := false |}, s',
             [Native IsVirtualDriveMounted; Native IsVirtualDriveActive])
       /\ virtualDriveConfig (desktopConfig s') = Sim.config true "X:".
Proof.
  split; [reflexivity |].
  eexists. split; [reflexivity |].
  repeat split.
Qed.

(** C7.  [changeMountPoint] hands the configured mount point, not the
    picked directory, to [verifyUnixMountPath].  With a usable configured
    path and an unusable pick, the pick is persisted unchecked; with an
    unusable configured path and a usable pick, the change is refused
    with the invalid-mount-point error. *)
Theorem changeMountPoint_checks_configured_path :
  desktopAPI.verifyUnixMountPath Sim.linux "/not/usable"
    (world (Sim.picking "/mnt/filen" "/not/usable"))
  = (Resolved false, world (Sim.picking "/mnt/filen" "/not/usable"))
  /\ changeMountPoint Sim.linux Sim.t (Sim.picking "/mnt/filen" "/not/usable")
     = (Normal tt,
        set_virtualDriveConfig (with_mountPoint "/not/usable")
          (Sim.picking "/mnt/filen" "/not/usable"),
        [SetEnabling true; Native (SelectDirectory false);
         Native (VerifyUnixMountPath "/mnt/filen");
         Native IsVirtualDriveMounted; Native IsVirtualDriveActive;
         Refetch KIsVirtualDriveMounted;
         Native IsVirtualDriveMounted; Native IsVirtualDriveActive;
         Refetch KGetAvailableDrives;
         SetDesktopConfig (Sim.config false "/not/usable");
         SetEnabling false])
  /\ changeMountPoint Sim.linux Sim.t (Sim.picking "/gone" "/mnt/filen")
     = (Normal tt, Sim.picking "/gone" "/mnt/filen",
        [SetEnabling true; Native (SelectDirectory false);
         Native (VerifyUnixMountPath "/gone");
         ErrorToast "mounts.virtualDrive.errors.invalidMountPoint";
         SetEnabling false]).
Proof. repeat split. Qed.

(** * Properties of the rest of the component *)

(** ** The values of the cache size control *)

Lemma digit_cases (d : Z) :
  0 <= d < 10 ->
  d = 0 \/ d = 1 \/ d = 2 \/ d = 3 \/ d = 4 \/ d = 5 \/ d = 6 \/ d = 7 \/ d = 8 \/ d = 9.
Proof. lia. Qed.

Lemma digit_value_digit_char (d : Z) :
  0 <= d < 10 -> digit_value (digit_char d) = Some d.
Proof.
  intros H.
  destruct (digit_cases d H) as [-> | [-> | [-> | [-> | [-> | [-> | [-> | [-> | [-> | ->]]]]]]]]];
    reflexivity.
Qed.

Lemma to_digits_zero (fuel : nat) (acc : string) : to_digits fuel 0 acc = acc.
Proof. destruct fuel; reflexivity. Qed.

Lemma to_digits_step (fuel : nat) (n : Z) (acc : string) :
  0 < n ->
  to_digits (S fuel) n acc
  = to_digits fuel (n / 10) (String (digit_char (n mod 10)) acc).
Proof.
  intros Hn. cbn [to_digits].
  destruct (Z.eqb_spec n 0); [lia | reflexivity].
Qed.

Lemma parse_digits_digit (d : Z) (r : string) (acc : option Z) :
  0 <= d < 10 ->
  parse_digits 10 (String (digit_char d) r) acc
  = parse_digits 10 r (Some (match acc with Some a => a * 10 + d | None => d end)).
Proof.
  intros Hd. cbn [parse_digits]. rewrite (digit_value_digit_char d Hd).
  destruct (Z.ltb_spec d 10); [reflexivity | lia].
Qed.

(** Reading back the digits written for [n] continues from [n]. *)
Lemma parse_digits_to_digits (fuel : nat) :
  forall (n : Z) (acc : string),
    0 < n < 2 ^ Z.of_nat fuel ->
    parse_digits 10 (to_digits fuel n acc) None = parse_digits 10 acc (Some n).
Proof.
  induction fuel as [| fuel IH]; intros n acc Hn.
  - cbn in Hn. lia.
  - rewrite to_digits_step by lia.
    assert (Hmod : 0 <= n mod 10 < 10) by (apply Z.mod_pos_bound; lia).
    assert (Hdiv : n = 10 * (n / 10) + n mod 10) by (apply Z.div_mod; lia).
    assert (Hq : 0 <= n / 10) by (apply Z.div_pos; lia).
    destruct (Z.eq_dec (n / 10) 0) as [Hz | Hnz].
    + rewrite Hz, to_digits_zero, parse_digits_digit by exact Hmod.
      f_equal. f_equal. lia.
    + rewrite IH.
      * rewrite parse_digits_digit by exact Hmod. f_equal. f_equal. lia.
      * split; [lia |].
        rewrite Nat2Z.inj_succ, Z.pow_succ_r in Hn by lia.
        apply Z.div_lt_upper_bound; lia.
Qed.

(** The digits written for a positive [n] begin with a digit from 1 to 9. *)
Lemma to_digits_head (fuel : nat) :
  forall (n : Z) (acc : string),
    0 < n < 2 ^ Z.of_nat fuel ->
    exists d r, 1 <= d < 10 /\ to_digits fuel n acc = String (digit_char d) r.
Proof.
  induction fuel as [| fuel IH]; intros n acc Hn.
  - cbn in Hn. lia.
  - rewrite to_digits_step by lia.
    assert (Hmod : 0 <= n mod 10 < 10) by (apply Z.mod_pos_bound; lia).
    assert (Hdiv : n = 10 * (n / 10) + n mod 10) by (apply Z.div_mod; lia).
    assert (Hq : 0 <= n / 10) by (apply Z.div_pos; lia).
    destruct (Z.eq_dec (n / 10) 0) as [Hz | Hnz].
    + rewrite Hz, to_digits_zero. exists (n mod 10), acc. split; [lia | reflexivity].
    + apply IH. split; [lia |].
      rewrite Nat2Z.inj_succ, Z.pow_succ_r in Hn by lia.
      apply Z.div_lt_upper_bound; lia.
Qed.

Lemma fuel_suffices (n : Z) :
  0 < n -> 0 < n < 2 ^ Z.of_nat (S (Z.to_nat (Z.log2 n))).
Proof.
  intros Hn. split; [exact Hn |].
  rewrite Nat2Z.inj_succ, Z2Nat.id by apply Z.log2_nonneg.
  apply Z.log2_spec. exact Hn.
Qed.

(** [parseInt] on an unsigned or negated run of decimal digits that
    begins with a digit from 1 to 9. *)
Lemma parseInt_decimal (d : Z) (r : string) :
  1 <= d < 10 ->
  parseInt (String (digit_char d) r)
  = match parse_digits 10 (String (digit_char d) r) None with
    | Some n => JInt (1 * n)
    | None => JNaN
    end
  /\ parseInt (String "-" (String (digit_char d) r))
     = match parse_digits 10 (String (digit_char d) r) None with
       | Some n => JInt (-1 * n)
       | None => JNaN
       end.
Proof.
  intros Hd.
  assert (Hc : d = 1 \/ d = 2 \/ d = 3 \/ d = 4 \/ d = 5 \/ d = 6 \/ d = 7 \/ d = 8 \/ d = 9)
    by lia.
  destruct Hc as [-> | [-> | [-> | [-> | [-> | [-> | [-> | [-> | ->]]]]]]]];
    split; reflexivity.
Qed.

Lemma parseInt_toString (n : Z) : parseInt (toString n) = JInt n.
Proof.
  unfold toString.
  destruct (Z.eqb_spec n 0) as [-> | Hnz]; [reflexivity |].
  destruct (Z.ltb_spec n 0) as [Hneg | Hpos].
  - pose proof (fuel_suffices (- n) ltac:(lia)) as Hf.
    destruct (to_digits_head _ (- n) "" Hf) as (d & r & Hd & Hs).
    rewrite Hs. rewrite (proj2 (parseInt_decimal d r Hd)).
    rewrite <- Hs, parse_digits_to_digits by exact Hf.
    cbn [parse_digits]. f_equal. lia.
  - pose proof (fuel_suffices n ltac:(lia)) as Hf.
    destruct (to_digits_head _ n "" Hf) as (d & r & Hd & Hs).
    rewrite Hs. rewrite (proj1 (parseInt_decimal d r Hd)).
    rewrite <- Hs, parse_digits_to_digits by exact Hf.
    cbn [parse_digits]. f_equal. lia.
Qed.

(** X12.  The values of the cache size control round-trip: for every
    safe integer [n], [parseInt(n.toString())] is [n]; so the values
    offered for a step set of safe integers parse back to exactly its
    steps, each of them a member of the set. *)
Theorem cache_select_values_round_trip (n : Z) (steps : list Z) :
  safe_integer n ->
  Forall safe_integer steps ->
  parseInt (toString n) = JInt n
  /\ map parseInt (cacheSelectValues steps) = map JInt steps
  /\ Forall (fun value => in_step_set steps (parseInt value) = true)
       (cacheSelectValues steps).
Proof.
  intros _ _.
  split; [apply parseInt_toString | split].
  - unfold cacheSelectValues. rewrite map_map.
    apply map_ext. exact parseInt_toString.
  - unfold cacheSelectValues. apply Forall_forall. intros value Hin.
    apply in_map_iff in Hin. destruct Hin as (m & <- & Hm).
    rewrite parseInt_toString. cbn. apply existsb_exists.
    exists m. split; [exact Hm | apply Z.eqb_refl].
Qed.

(** X13.  Once the budget query has succeeded, the generator is asked
    for the whole gibibytes of the budget, rounded down: a budget of [k]
    GiB and any fraction gives the steps of [k]. *)
Theorem cacheSteps_floors_budget
    (generator : jsnumber -> list Z) (q : QueryState Z) (bytes k : Z) :
  isSuccess q = true ->
  data q = Some bytes ->
  k * (1024 * 1024 * 1024) <= bytes < (k + 1) * (1024 * 1024 * 1024) ->
  cacheSteps generator q = generator (JInt k).
Proof.
  intros Hs Hd Hb. unfold cacheSteps. rewrite Hs, Hd. cbn [negb].
  f_equal. f_equal. symmetry.
  apply (Z.div_unique bytes (1024 * 1024 * 1024) k (bytes - k * (1024 * 1024 * 1024))); lia.
Qed.

Section SurroundingsProperties.

Context {World Rest : Type}.
Variable api : desktopAPI.t World.

Local Abbreviation State := (State World Rest).

(** ** The drive letter control *)

Lemma filter_other_letters (mp : string) (letters : list string) :
  ~ In mp (filter (fun letter => negb (letter =? mp)%string) letters).
Proof.
  intros Hin. apply filter_In in Hin. destruct Hin as [_ Hne].
  now rewrite String.eqb_refl in Hne.
Qed.

Lemma filter_idem {A} (f : A -> bool) (l : list A) :
  filter f (filter f l) = filter f l.
Proof.
  induction l as [| x l IH]; [reflexivity |].
  cbn. destruct (f x) eqn:E; cbn; [rewrite E, IH; reflexivity | exact IH].
Qed.

(** X14.  On win32, once the drive enumeration has succeeded, the list
    behind the drive letter control contains the configured mount point
    exactly once, as its last element, and apart from it exactly the
    letters the service reported, in the order reported; it has no
    duplicates when the report has none. *)
Theorem availableDrives_offers_configured_letter (s : State) (letters : list string) :
  desktopAPI.platform api = "win32" ->
  isSuccess (availableDrivesQuery s) = true ->
  data (availableDrivesQuery s) = Some letters ->
  let mp := mountPoint (virtualDriveConfig (desktopConfig s)) in
  exists offered,
    availableDrives api s = Some offered
    /\ last offered "" = mp
    /\ count_occ string_dec offered mp = 1%nat
    /\ (forall letter, In letter offered <-> letter = mp \/ In letter letters)
    /\ filter (fun letter => negb (letter =? mp)%string) offered
       = filter (fun letter => negb (letter =? mp)%string) letters
    /\ (NoDup letters -> NoDup offered).
Proof.
  intros Hwin Hs Hd mp.
  exists (filter (fun letter => negb (letter =? mp)%string) letters ++ [mp]).
  pose proof (filter_other_letters mp letters) as Hnot.
  split; [| split; [| split; [| split; [| split]]]].
  - unfold availableDrives. rewrite Hs, Hwin, Hd. reflexivity.
  - apply last_last.
  - rewrite count_occ_app.
    rewrite (proj1 (count_occ_not_In string_dec _ mp) Hnot).
    cbn. destruct (string_dec mp mp); [reflexivity | contradiction].
  - intros letter. rewrite in_app_iff, filter_In. cbn. split.
    + intros [[Hin _] | [<- | []]]; [now right | now left].
    + intros [-> | Hin]; [right; now left |].
      destruct (String.eqb_spec letter mp) as [-> | Hne].
      * right. now left.
      * left. now split.
  - rewrite filter_app. cbn. rewrite String.eqb_refl. cbn. rewrite app_nil_r.
    apply filter_idem.
  - intros Hnd. apply NoDup_app; [| | ].
    + now apply NoDup_filter.
    + repeat constructor. intros [].
    + intros x Hx [<- | []]. exact (Hnot Hx).
Qed.

(** ** Browsing the mount *)

(** X15.  [browse] is read-only for the controller: it always settles
    normally, never writes the configuration or the guard and leaves the
    query results alone.  It opens a path only when [enabled] is set and
    its own probe reports the drive mounted, and the path is then the
    configured mount point followed by a backslash; with [enabled] unset
    it does nothing at all. *)
Theorem browse_is_read_only
    (openLocalPath : string -> World -> Promise unit * World) (s : State) :
  exists s' trace,
    browse api openLocalPath s = (Normal tt, s', trace)
    /\ desktopConfig s' = desktopConfig s
    /\ enabling s' = enabling s
    /\ isMountedQuery s' = isMountedQuery s
    /\ availableDrivesQuery s' = availableDrivesQuery s
    /\ cacheSizeQuery s' = cacheSizeQuery s
    /\ availableCacheSizeQuery s' = availableCacheSizeQuery s
    /\ (forall v, ~ In (Core (SetDesktopConfig v)) trace)
    /\ (forall b, ~ In (Core (SetEnabling b)) trace)
    /\ (forall path, In (OpenLocalPath path) trace ->
          enabled (virtualDriveConfig (desktopConfig s)) = true
          /\ path = (mountPoint (virtualDriveConfig (desktopConfig s)) ++ "\")%string
          /\ exists probe s1 t1,
               isVirtualDriveMounted api s = (Normal probe, s1, t1)
               /\ mounted probe = true)
    /\ (enabled (virtualDriveConfig (desktopConfig s)) = false ->
        s' = s /\ trace = []).
Proof.
  unfold browse.
  destruct (enabled (virtualDriveConfig (desktopConfig s))) eqn:Hen; cbn [negb].
  2: { exists s, []. repeat split;
       first [ intros x Hx; now destruct Hx
             | match goal with H : In _ [] |- _ => destruct H end ]. }
  destruct (isVirtualDriveMounted api s) as [[c s1] t1] eqn:Hm.
  pose proof (isVirtualDriveMounted_calls api _ _ _ _ Hm) as ->.
  assert (Hframe : desktopConfig s1 = desktopConfig s /\ enabling s1 = enabling s
                   /\ isMountedQuery s1 = isMountedQuery s
                   /\ availableDrivesQuery s1 = availableDrivesQuery s
                   /\ cacheSizeQuery s1 = cacheSizeQuery s
                   /\ availableCacheSizeQuery s1 = availableCacheSizeQuery s).
  { repeat split;
      [ exact (keeps_isVirtualDriveMounted api desktopConfig (fun _ _ => eq_refl) _ _ _ _ Hm)
      | exact (keeps_isVirtualDriveMounted api enabling (fun _ _ => eq_refl) _ _ _ _ Hm)
      | exact (keeps_isVirtualDriveMounted api isMountedQuery (fun _ _ => eq_refl) _ _ _ _ Hm)
      | exact (keeps_isVirtualDriveMounted api availableDrivesQuery
                 (fun _ _ => eq_refl) _ _ _ _ Hm)
      | exact (keeps_isVirtualDriveMounted api cacheSizeQuery (fun _ _ => eq_refl) _ _ _ _ Hm)
      | exact (keeps_isVirtualDriveMounted api availableCacheSizeQuery
                 (fun _ _ => eq_refl) _ _ _ _ Hm) ]. }
  destruct Hframe as (H1 & H2 & H3 & H4 & H5 & H6).
  assert (Hprobe : forall probe, c = Normal probe -> mounted probe = true ->
                     exists probe s2 t2,
                       (c, s1, [Native IsVirtualDriveMounted; Native IsVirtualDriveActive])
                       = (Normal probe, s2, t2) /\ mounted probe = true).
  { intros probe -> Hup. eexists. eexists. eexists. split; [reflexivity | exact Hup]. }
  destruct c as [probe | | e];
    [ destruct (mounted probe) eqn:Hup; cbn [negb];
      [ destruct (openLocalPath
                    (mountPoint (virtualDriveConfig (desktopConfig s)) ++ "\")%string
                    (world s1)) as [[[] | e] w] | ] | | ];
    eexists; eexists; (split; [reflexivity |]);
    cbn [set_world desktopConfig enabling isMountedQuery availableDrivesQuery
           cacheSizeQuery availableCacheSizeQuery map app];
    (split; [exact H1 |]); (split; [exact H2 |]); (split; [exact H3 |]);
    (split; [exact H4 |]); (split; [exact H5 |]); (split; [exact H6 |]);
    (split; [intros v Hin; cbn in Hin; intuition discriminate |]);
    (split; [intros b Hin; cbn in Hin; intuition discriminate |]);
    (split; [| discriminate]);
    intros path Hin; cbn in Hin;
    repeat (destruct Hin as [Hin | Hin]); try discriminate Hin; try contradiction;
    inversion Hin; subst; (split; [reflexivity |]); (split; [reflexivity |]);
    exact (Hprobe probe eq_refl Hup).
Qed.

(** ** The refresh listener *)

(** X16.  The [refetchVirtualDrive] listener does not look at the guard:
    in every state, also while a transition is in flight, it probes the
    mount.  When the probe succeeds it settles normally after that one
    probe, stores the probe's answer in the mount state query and changes
    nothing else: not the configuration, not the guard, not the other
    queries. *)
Theorem refresh_listener_bypasses_guard
    (s s1 : State) (probe : MountedResult) (t1 : Trace) :
  isVirtualDriveMounted api s = (Normal probe, s1, t1) ->
  onRefetchVirtualDrive api s
  = (Normal tt, set_isMountedQuery (mkQueryState (Some probe) true) s1,
     [Refetch KIsVirtualDriveMounted;
      Native IsVirtualDriveMounted; Native IsVirtualDriveActive])
  /\ desktopConfig s1 = desktopConfig s
  /\ enabling s1 = enabling s
  /\ availableDrivesQuery s1 = availableDrivesQuery s
  /\ cacheSizeQuery s1 = cacheSizeQuery s
  /\ availableCacheSizeQuery s1 = availableCacheSizeQuery s.
Proof.
  intros Hm.
  pose proof (isVirtualDriveMounted_calls api _ _ _ _ Hm) as ->.
  split.
  - unfold onRefetchVirtualDrive, try_catch, isMountedQuery_refetch, refetch.
    rewrite Hm. reflexivity.
  - repeat split.
    + exact (keeps_isVirtualDriveMounted api desktopConfig (fun _ _ => eq_refl) _ _ _ _ Hm).
    + exact (keeps_isVirtualDriveMounted api enabling (fun _ _ => eq_refl) _ _ _ _ Hm).
    + exact (keeps_isVirtualDriveMounted api availableDrivesQuery
               (fun _ _ => eq_refl) _ _ _ _ Hm).
    + exact (keeps_isVirtualDriveMounted api cacheSizeQuery (fun _ _ => eq_refl) _ _ _ _ Hm).
    + exact (keeps_isVirtualDriveMounted api availableCacheSizeQuery
               (fun _ _ => eq_refl) _ _ _ _ Hm).
Qed.

End SurroundingsProperties.

(** ** The desktop update dialog *)

Module DesktopUpdateDialogProperties.

Import DesktopUpdateDialog.

Lemma dismissed_mark (v key : string) (st : State) (o u : bool) (current : string) :
  dismissed st key = true ->
  dismissed (mkState o u current (mark v (desktopUpdateDialogDismissedVersions st))) key
  = true.
Proof.
  unfold dismissed, mark. cbn. intros H.
  destruct (key =? v)%string; [reflexivity | exact H].
Qed.

Lemma dismissed_mark_self (v : string) (st : State) (o u : bool) (current : string) :
  dismissed (mkState o u current (mark v (desktopUpdateDialogDismissedVersions st))) v
  = true.
Proof. unfold dismissed, mark. cbn. now rewrite String.eqb_refl. Qed.

(** A dismissal is never forgotten. *)
Lemma step_keeps_dismissed {World : Type} (installUpdate : World -> Promise unit * World)
    (op : Op) (st st' : State) (w w' : World) (tr : list Event) (key : string) :
  step installUpdate op st w = (st', w', tr) ->
  dismissed st key = true -> dismissed st' key = true.
Proof.
  intros Hstep Hd. destruct op as [| | m]; cbn in Hstep.
  - inversion Hstep; subst. unfold dismiss.
    destruct (isUpdating st); [exact Hd | now apply dismissed_mark].
  - unfold update in Hstep.
    destruct (installUpdate w) as [[[] | e] w1]; inversion Hstep; subst;
      now apply dismissed_mark.
  - inversion Hstep; subst. unfold onMainToWindowMessage, onUpdateDownloaded.
    destruct ((type m =? "updater")%string && (dataType m =? "updateDownloaded")%string);
      [| exact Hd].
    destruct (dismissed st (infoVersion m)); exact Hd.
Qed.

Lemma run_keeps_dismissed {World : Type} (installUpdate : World -> Promise unit * World)
    (ops : list Op) :
  forall (st st' : State) (w w' : World) (tr : list Event) (key : string),
    run installUpdate ops st w = (st', w', tr) ->
    dismissed st key = true -> dismissed st' key = true.
Proof.
  induction ops as [| op ops IH]; intros st st' w w' tr key Hrun Hd; cbn in Hrun.
  - inversion Hrun; subst. exact Hd.
  - destruct (step installUpdate op st w) as [[st1 w1] t1] eqn:Hstep.
    destruct (run installUpdate ops st1 w1) as [[st2 w2] t2] eqn:Hrest.
    inversion Hrun; subst.
    eapply IH; [exact Hrest |].
    eapply step_keeps_dismissed; [exact Hstep | exact Hd].
Qed.

(** X17.  A version the user has dismissed never opens the dialog again.
    Dismissing (while no installation runs) closes the dialog and records
    its version; after that, whatever else happens to the dialog, the
    version stays recorded, and a report that this version was downloaded
    changes nothing. *)
Theorem dismissed_version_never_reopens {World : Type}
    (installUpdate : World -> Promise unit * World)
    (st st' : State) (ops : list Op) (w w' : World) (tr : list Event) :
  isUpdating st = false ->
  run installUpdate ops (dismiss st) w = (st', w', tr) ->
  open (dismiss st) = false
  /\ dismissed st' (version st) = true
  /\ onUpdateDownloaded (version st) st' = st'
  /\ onMainToWindowMessage (mkMessage "updater" "updateDownloaded" (version st)) st' = st'.
Proof.
  intros Hu Hrun.
  assert (Hd : dismissed (dismiss st) (version st) = true).
  { unfold dismiss. rewrite Hu. apply dismissed_mark_self. }
  pose proof (run_keeps_dismissed installUpdate ops _ _ _ _ _ _ Hrun Hd) as Hd'.
  split; [unfold dismiss; now rewrite Hu |].
  split; [exact Hd' |].
  split.
  - unfold onUpdateDownloaded. now rewrite Hd'.
  - unfold onMainToWindowMessage, onUpdateDownloaded. cbn. now rewrite Hd'.
Qed.

Lemma step_keeps_pinned {World : Type} (installUpdate : World -> Promise unit * World)
    (op : Op) (st st' : State) (w w' : World) (tr : list Event) :
  step installUpdate op st w = (st', w', tr) ->
  open st = true /\ isUpdating st = true ->
  open st' = true /\ isUpdating st' = true.
Proof.
  intros Hstep [Ho Hu]. destruct op as [| | m]; cbn in Hstep.
  - inversion Hstep; subst. unfold dismiss. rewrite Hu. now split.
  - unfold update in Hstep.
    destruct (installUpdate w) as [[[] | e] w1]; inversion Hstep; subst; now split.
  - inversion Hstep; subst. unfold onMainToWindowMessage, onUpdateDownloaded.
    destruct ((type m =? "updater")%string && (dataType m =? "updateDownloaded")%string);
      [| now split].
    destruct (dismissed st (infoVersion m)); cbn; now split.
Qed.

Lemma run_keeps_pinned {World : Type} (installUpdate : World -> Promise unit * World)
    (ops : list Op) :
  forall (st st' : State) (w w' : World) (tr : list Event),
    run installUpdate ops st w = (st', w', tr) ->
    open st = true /\ isUpdating st = true ->
    open st' = true /\ isUpdating st' = true.
Proof.
  induction ops as [| op ops IH]; intros st st' w w' tr Hrun Hp; cbn in Hrun.
  - inversion Hrun; subst. exact Hp.
  - destruct (step installUpdate op st w) as [[st1 w1] t1] eqn:Hstep.
    destruct (run installUpdate ops st1 w1) as [[st2 w2] t2] eqn:Hrest.
    inversion Hrun; subst.
    eapply IH; [exact Hrest |].
    eapply step_keeps_pinned; [exact Hstep | exact Hp].
Qed.

(** X18.  Starting an installation pins the dialog.  [update] opens the
    dialog, marks it as updating and records the version as dismissed
    before it calls [installUpdate]; a rejected installation is reported
    in a toast and nothing is reset.  From then on, whatever happens to
    the dialog, it stays open and updating, and dismissing it has no
    effect. *)
Theorem update_pins_dialog {World : Type}
    (installUpdate : World -> Promise unit * World)
    (st st1 st2 : State) (ops : list Op) (w w1 w2 : World) (t1 t2 : list Event) :
  update installUpdate st w = (st1, w1, t1) ->
  run installUpdate ops st1 w1 = (st2, w2, t2) ->
  open st2 = true
  /\ isUpdating st2 = true
  /\ dismiss st2 = st2
  /\ dismissed st2 (version st) = true
  /\ (t1 = [InstallUpdate]
      \/ exists e, fst (installUpdate w) = Rejected e
                   /\ t1 = [InstallUpdate; ConsoleError e; ErrorToast (message e)]).
Proof.
  intros Hup Hrun.
  assert (Hst1 : open st1 = true /\ isUpdating st1 = true
                 /\ dismissed st1 (version st) = true
                 /\ (t1 = [InstallUpdate]
                     \/ exists e, fst (installUpdate w) = Rejected e
                                  /\ t1 = [InstallUpdate; ConsoleError e;
                                           ErrorToast (message e)])).
  { unfold update in Hup.
    destruct (installUpdate w) as [[[] | e] w0]; inversion Hup; subst; cbn;
      repeat split; try apply dismissed_mark_self; [now left | right; now exists e]. }
  destruct Hst1 as (Ho & Hu & Hd & Ht).
  destruct (run_keeps_pinned installUpdate ops _ _ _ _ _ Hrun (conj Ho Hu)) as [Ho2 Hu2].
  repeat split; auto.
  - unfold dismiss. now rewrite Hu2.
  - exact (run_keeps_dismissed installUpdate ops _ _ _ _ _ _ Hrun Hd).
Qed.

End DesktopUpdateDialogProperties.

(** * The further properties on concrete runs *)

Lemma transition_contains_failures_witness :
  transition Sim.win32 Sim.t (Toggle true) Sim.broken
  = (Normal tt, set_virtualDriveConfig (with_enabled false) Sim.broken,
     [SetEnabling true; Native RestartVirtualDrive;
      ConsoleError (mkError "Mount failed."); ErrorToast "Mount failed.";
      SetDesktopConfig (Sim.config false "X:"); SetEnabling false])
  /\ ((Normal tt : Completion unit) = Normal tt
      \/ (needs_confirmation (Toggle true) = true
          /\ exists e,
               Normal tt = Throw e
               /\ confirmation Sim.win32 (Toggle true) Sim.broken
                  = (Throw e, set_virtualDriveConfig (with_enabled false) Sim.broken,
                     [SetEnabling true; Native RestartVirtualDrive;
                      ConsoleError (mkError "Mount failed."); ErrorToast "Mount failed.";
                      SetDesktopConfig (Sim.config false "X:"); SetEnabling false]))).
Proof.
  split; [reflexivity |].
  exact (transition_contains_failures Sim.win32 Sim.t (Toggle true) Sim.broken
           _ _ _ eq_refl).
Defined.


Lemma transition_touches_only_its_field_witness :
  let s' := snd (fst (transition Sim.win32 Sim.t (ChangeCacheSize "50") Sim.down)) in
  cacheSizeInGi (virtualDriveConfig (desktopConfig s')) = JInt 50
  /\ otherConfig (desktopConfig s') = otherConfig (desktopConfig Sim.down)
  /\ (mountPoint (virtualDriveConfig (desktopConfig s'))
      <> mountPoint (virtualDriveConfig (desktopConfig Sim.down)) ->
      ChangeCacheSize "50" = ChangeMountPoint
      \/ exists letter, ChangeCacheSize "50" = ChangeDriveLetter letter)
  /\ (cacheSizeInGi (virtualDriveConfig (desktopConfig s'))
      <> cacheSizeInGi (virtualDriveConfig (desktopConfig Sim.down)) ->
      exists size, ChangeCacheSize "50" = ChangeCacheSize size)
  /\ (enabled (virtualDriveConfig (desktopConfig s'))
      <> enabled (virtualDriveConfig (desktopConfig Sim.down)) ->
      enabled (virtualDriveConfig (desktopConfig s')) = false
      \/ ChangeCacheSize "50" = Toggle true).
Proof.
  split; [reflexivity |].
  exact (transition_touches_only_its_field Sim.win32 Sim.t (ChangeCacheSize "50") Sim.down
           _ _ _ eq_refl).
Defined.

Lemma invalid_mount_point_aborts_witness :
  mountPointInvalid Sim.linux (Sim.picking "/gone" "/mnt/filen")
    (set_enabling true (Sim.picking "/gone" "/mnt/filen"))
  = (Normal true, set_enabling true (Sim.picking "/gone" "/mnt/filen"),
     [Native (VerifyUnixMountPath "/gone")])
  /\ transition Sim.linux Sim.t (Toggle true) (Sim.picking "/gone" "/mnt/filen")
     = (Normal tt, Sim.picking "/gone" "/mnt/filen",
        [SetEnabling true; Native (VerifyUnixMountPath "/gone");
         ErrorToast "mounts.virtualDrive.errors.invalidMountPoint";
         SetEnabling false]).
Proof.
  split; [reflexivity |].
  exact (proj1 (invalid_mount_point_aborts Sim.linux Sim.t (Toggle true)
                  (Sim.picking "/gone" "/mnt/filen") (Sim.picking "/gone" "/mnt/filen")
                  (set_enabling true (Sim.picking "/gone" "/mnt/filen")) []
                  [Native (VerifyUnixMountPath "/gone")]
                  eq_refl eq_refl eq_refl eq_refl)).
Defined.

Lemma win32_never_verifies_path_witness :
  desktopAPI.platform Sim.win32 = "win32"
  /\ filter is_verify (snd (transition Sim.win32 Sim.t (ChangeCacheSize "50") Sim.down)) = [].
Proof.
  split; [reflexivity |].
  exact (win32_never_verifies_path Sim.win32 Sim.t (ChangeCacheSize "50") Sim.down
           _ _ _ eq_refl eq_refl).
Defined.

Lemma only_win32_enumerates_drives_witness :
  (desktopAPI.platform Sim.linux =? "win32")%string = false
  /\ filter is_enumerate
       (snd (transition Sim.linux Sim.t (Toggle true) (Sim.picking "/mnt/filen" "/x"))) = [].
Proof.
  split; [reflexivity |].
  exact (only_win32_enumerates_drives Sim.linux Sim.t (Toggle true)
           (Sim.picking "/mnt/filen" "/x") _ _ _ eq_refl eq_refl).
Defined.

Lemma enable_success_persists_enabled_witness :
  let w2 := Sim.set_mount true (world Sim.down) in
  let s3 := set_world w2 (set_enabling true Sim.down) in
  desktopAPI.restartVirtualDrive Sim.win32 (world Sim.down) = (Resolved tt, w2)
  /\ isVirtualDriveMounted Sim.win32 s3
     = (Normal {| mounted := true |}, s3,
        [Native IsVirtualDriveMounted; Native IsVirtualDriveActive])
  /\ exists s4 tq,
       promise_all
         [isMountedQuery_refetch Sim.win32; availableDrivesQuery_refetch Sim.win32] s3
       = (Normal tt, s4, tq)
       /\ onCheckedChange Sim.win32 Sim.t true Sim.down
          = (Normal tt,
             set_enabling false (set_virtualDriveConfig (with_enabled true) s4),
             SetEnabling true :: [] ++ Native RestartVirtualDrive ::
               [Native IsVirtualDriveMounted; Native IsVirtualDriveActive] ++ tq ++
               [SetDesktopConfig
                  (with_enabled true (virtualDriveConfig (desktopConfig Sim.down)));
                SetEnabling false])
       /\ desktopConfig s4 = desktopConfig Sim.down.
Proof.
  split; [reflexivity | split; [reflexivity |]].
  exact (enable_success_persists_enabled Sim.win32 Sim.t Sim.down
           (set_enabling true Sim.down)
           (set_world (Sim.set_mount true (world Sim.down)) (set_enabling true Sim.down))
           (Sim.set_mount true (world Sim.down)) []
           [Native IsVirtualDriveMounted; Native IsVirtualDriveActive]
           {| mounted := true |}
           eq_refl eq_refl eq_refl eq_refl eq_refl).
Defined.

Lemma disable_success_persists_disabled_witness :
  let w2 := Sim.set_mount false (world Sim.up) in
  desktopAPI.showConfirmDialog Sim.win32 DisableDialog (world Sim.up)
  = (Resolved true, world Sim.up)
  /\ desktopAPI.stopVirtualDrive Sim.win32 (world Sim.up) = (Resolved tt, w2)
  /\ exists s4 tq,
       promise_all
         [isMountedQuery_refetch Sim.win32; availableDrivesQuery_refetch Sim.win32]
         (set_world w2 (set_enabling true Sim.up))
       = (Normal tt, s4, tq)
       /\ onCheckedChange Sim.win32 Sim.t false Sim.up
          = (Normal tt,
             set_enabling false (set_virtualDriveConfig (with_enabled false) s4),
             ConfirmDialog DisableDialog :: SetEnabling true :: [] ++
               Native StopVirtualDrive :: tq ++
               [SetDesktopConfig
                  (with_enabled false (virtualDriveConfig (desktopConfig Sim.up)));
                SetEnabling false])
       /\ desktopConfig s4 = desktopConfig Sim.up.
Proof.
  split; [reflexivity | split; [reflexivity |]].
  exact (disable_success_persists_disabled Sim.win32 Sim.t Sim.up
           (set_enabling true Sim.up) (world Sim.up)
           (Sim.set_mount false (world Sim.up)) []
           eq_refl eq_refl eq_refl eq_refl).
Defined.

Lemma drive_letter_persisted_when_unmounted_witness :
  isVirtualDriveMounted Sim.win32 (set_enabling true Sim.down)
  = (Normal {| mounted := false |}, set_enabling true Sim.down,
     [Native IsVirtualDriveMounted; Native IsVirtualDriveActive])
  /\ exists s4 tq,
       promise_all
         [isMountedQuery_refetch Sim.win32; availableDrivesQuery_refetch Sim.win32]
         (set_enabling true Sim.down)
       = (Normal tt, s4, tq)
       /\ onDriveLetterChange Sim.win32 "Q:" Sim.down
          = (Normal tt,
             set_enabling false (set_virtualDriveConfig (with_mountPoint "Q:") s4),
             SetEnabling true ::
               [Native IsVirtualDriveMounted; Native IsVirtualDriveActive] ++ tq ++
               [SetDesktopConfig
                  (with_mountPoint "Q:" (virtualDriveConfig (desktopConfig Sim.down)));
                SetEnabling false])
       /\ desktopConfig s4 = desktopConfig Sim.down.
Proof.
  split; [reflexivity |].
  exact (drive_letter_persisted_when_unmounted Sim.win32 Sim.t "Q:" Sim.down
           (set_enabling true Sim.down)
           [Native IsVirtualDriveMounted; Native IsVirtualDriveActive]
           {| mounted := false |}
           eq_refl eq_refl eq_refl).
Defined.

Lemma drive_letter_remounts_when_mounted_witness :
  let s1 := set_enabling true Sim.up in
  isVirtualDriveMounted Sim.win32 s1
  = (Normal {| mounted := true |}, s1,
     [Native IsVirtualDriveMounted; Native IsVirtualDriveActive])
  /\ desktopAPI.restartVirtualDrive Sim.win32 (world s1) = (Resolved tt, world s1)
  /\ exists s4 tq,
       promise_all
         [isMountedQuery_refetch Sim.win32; availableDrivesQuery_refetch Sim.win32] s1
       = (Normal tt, s4, tq)
       /\ desktopConfig s1 = desktopConfig Sim.up
       /\ desktopConfig s4 = desktopConfig Sim.up
       /\ onDriveLetterChange Sim.win32 "Q:" Sim.up
          = (Normal tt,
             set_enabling false (set_virtualDriveConfig (with_mountPoint "Q:") s4),
             SetEnabling true ::
               [Native IsVirtualDriveMounted; Native IsVirtualDriveActive;
                Native RestartVirtualDrive;
                Native IsVirtualDriveMounted; Native IsVirtualDriveActive] ++ tq ++
               [SetDesktopConfig
                  (with_mountPoint "Q:" (virtualDriveConfig (desktopConfig Sim.up)));
                SetEnabling false]).
Proof.
  split; [reflexivity | split; [reflexivity |]].
  exact (drive_letter_remounts_when_mounted Sim.win32 Sim.t "Q:" Sim.up
           (set_enabling true Sim.up) (set_enabling true Sim.up) (world Sim.up)
           [Native IsVirtualDriveMounted; Native IsVirtualDriveActive]
           [Native IsVirtualDriveMounted; Native IsVirtualDriveActive]
           {| mounted := true |} {| mounted := true |}
           eq_refl eq_refl eq_refl eq_refl eq_refl).
Defined.

Lemma purge_restarts_iff_still_mounted_witness :
  let w2 := Sim.set_usedCache 0 (Sim.set_mount false (world Sim.up_unseen)) in
  isVirtualDriveMounted Sim.win32 (set_world w2 (set_enabling true Sim.up_unseen))
  = (Normal {| mounted := false |}, set_world w2 (set_enabling true Sim.up_unseen),
     [Native IsVirtualDriveMounted; Native IsVirtualDriveActive])
  /\ exists s' trace,
       cleanupCache Sim.win32 Sim.up_unseen = (Normal tt, s', trace)
       /\ (In (Native RestartVirtualDrive) trace <-> false = true).
Proof.
  split; [reflexivity |].
  exact (purge_restarts_iff_still_mounted Sim.win32 Sim.t Sim.up_unseen
           (set_world (Sim.set_usedCache 0 (Sim.set_mount false (world Sim.up_unseen)))
              (set_enabling true Sim.up_unseen))
           (world Sim.up_unseen) (Sim.set_mount false (world Sim.up_unseen))
           (Sim.set_usedCache 0 (Sim.set_mount false (world Sim.up_unseen)))
           [Native IsVirtualDriveMounted; Native IsVirtualDriveActive]
           {| mounted := false |}
           eq_refl eq_refl eq_refl eq_refl eq_refl).
Defined.

Lemma cacheSteps_floors_budget_witness :
  25 * (1024 * 1024 * 1024) <= 27000000000 < (25 + 1) * (1024 * 1024 * 1024)
  /\ cacheSteps (generateCacheSteps Sim.ladder) (mkQueryState (Some 27000000000) true)
     = generateCacheSteps Sim.ladder (JInt 25).
Proof.
  split; [lia |].
  apply (cacheSteps_floors_budget (generateCacheSteps Sim.ladder)
           (mkQueryState (Some 27000000000) true) 27000000000 25);
    [reflexivity | reflexivity | lia].
Defined.

Lemma availableDrives_offers_configured_letter_witness :
  let s :=
    set_availableDrivesQuery (mkQueryState (Some ["X:"; "Y:"; "Z:"]) true) Sim.down in
  availableDrives Sim.win32 s = Some ["Y:"; "Z:"; "X:"]
  /\ exists offered,
       availableDrives Sim.win32 s = Some offered
       /\ last offered "" = "X:"
       /\ count_occ string_dec offered "X:" = 1%nat
       /\ (forall letter, In letter offered <-> letter = "X:" \/ In letter ["X:"; "Y:"; "Z:"])
       /\ filter (fun letter => negb (letter =? "X:")%string) offered
          = filter (fun letter => negb (letter =? "X:")%string) ["X:"; "Y:"; "Z:"]
       /\ (NoDup ["X:"; "Y:"; "Z:"] -> NoDup offered).
Proof.
  split; [reflexivity |].
  exact (availableDrives_offers_configured_letter Sim.win32
           (set_availableDrivesQuery (mkQueryState (Some ["X:"; "Y:"; "Z:"]) true) Sim.down)
           ["X:"; "Y:"; "Z:"] eq_refl eq_refl eq_refl).
Defined.

Lemma dismissed_version_never_reopens_witness :
  let install := fun w : unit => (Rejected (A:=unit) (mkError "Install failed."), w) in
  let st := DesktopUpdateDialog.onUpdateDownloaded "2.0.1" DesktopUpdateDialog.initial in
  let ops :=
    [DesktopUpdateDialog.Receive
       (DesktopUpdateDialog.mkMessage "updater" "updateDownloaded" "2.0.1");
     DesktopUpdateDialog.Receive
       (DesktopUpdateDialog.mkMessage "updater" "updateDownloaded" "2.0.2");
     DesktopUpdateDialog.Dismiss;
     DesktopUpdateDialog.Receive
       (DesktopUpdateDialog.mkMessage "updater" "updateDownloaded" "2.0.1")] in
  let st' := fst (fst (DesktopUpdateDialog.run install ops (DesktopUpdateDialog.dismiss st) tt)) in
  DesktopUpdateDialog.open st = true
  /\ DesktopUpdateDialog.open st' = false
  /\ DesktopUpdateDialog.open (DesktopUpdateDialog.dismiss st) = false
  /\ DesktopUpdateDialog.dismissed st' (DesktopUpdateDialog.version st) = true
  /\ DesktopUpdateDialog.onUpdateDownloaded (DesktopUpdateDialog.version st) st' = st'
  /\ DesktopUpdateDialog.onMainToWindowMessage
       (DesktopUpdateDialog.mkMessage "updater" "updateDownloaded"
          (DesktopUpdateDialog.version st)) st' = st'.
Proof.
  split; [reflexivity | split; [reflexivity |]].
  exact (DesktopUpdateDialogProperties.dismissed_version_never_reopens
           (fun w : unit => (Rejected (A:=unit) (mkError "Install failed."), w))
           (DesktopUpdateDialog.onUpdateDownloaded "2.0.1" DesktopUpdateDialog.initial)
           _
           [DesktopUpdateDialog.Receive
              (DesktopUpdateDialog.mkMessage "updater" "updateDownloaded" "2.0.1");
            DesktopUpdateDialog.Receive
              (DesktopUpdateDialog.mkMessage "updater" "updateDownloaded" "2.0.2");
            DesktopUpdateDialog.Dismiss;
            DesktopUpdateDialog.Receive
              (DesktopUpdateDialog.mkMessage "updater" "updateDownloaded" "2.0.1")]
           tt _ _ eq_refl eq_refl).
Defined.

Lemma update_pins_dialog_witness :
  let install := fun w : unit => (Rejected (A:=unit) (mkError "Install failed."), w) in
  let st := DesktopUpdateDialog.onUpdateDownloaded "2.0.1" DesktopUpdateDialog.initial in
  let st1 := fst (fst (DesktopUpdateDialog.update install st tt)) in
  let t1 := snd (DesktopUpdateDialog.update install st tt) in
  let st2 :=
    fst (fst (DesktopUpdateDialog.run install
                [DesktopUpdateDialog.Dismiss; DesktopUpdateDialog.Dismiss] st1 tt)) in
  t1 = [DesktopUpdateDialog.InstallUpdate;
        DesktopUpdateDialog.ConsoleError (mkError "Install failed.");
        DesktopUpdateDialog.ErrorToast "Install failed."]
  /\ DesktopUpdateDialog.open st2 = true
  /\ DesktopUpdateDialog.isUpdating st2 = true
  /\ DesktopUpdateDialog.dismiss st2 = st2
  /\ DesktopUpdateDialog.dismissed st2 (DesktopUpdateDialog.version st) = true
  /\ (t1 = [DesktopUpdateDialog.InstallUpdate]
      \/ exists e,
           fst (install tt) = Rejected e
           /\ t1 = [DesktopUpdateDialog.InstallUpdate;
                    DesktopUpdateDialog.ConsoleError e;
                    DesktopUpdateDialog.ErrorToast (message e)]).
Proof.
  split; [reflexivity |].
  exact (DesktopUpdateDialogProperties.update_pins_dialog
           (fun w : unit => (Rejected (A:=unit) (mkError "Install failed."), w))
           (DesktopUpdateDialog.onUpdateDownloaded "2.0.1" DesktopUpdateDialog.initial)
           _ _ [DesktopUpdateDialog.Dismiss; DesktopUpdateDialog.Dismiss]
           tt _ _ _ _ eq_refl eq_refl).
Defined.

(** ** The picked mount point *)

(** X19.  [changeMountPoint], when the picker returns a non-empty first
    path, the configured mount point passes the check and the drive is
    probed as not mounted: the picked path is persisted as the new mount
    point after the refresh of the two queries.  The check of the run, if
    the platform has one, was made on the configured path; the picked
    path is handed to no call. *)
Theorem picked_path_is_persisted_unchecked {World Rest : Type}
    (api : desktopAPI.t World) (t : string -> string)
    (s s2 s3 : State World Rest) (w1 : World) (picked : SelectDirectoryResult)
    (path : string) (tv tm : Trace) (before : MountedResult) :
  enabling s = false ->
  desktopAPI.selectDirectory api false (world s) = (Resolved picked, w1) ->
  cancelled picked = false ->
  nth_error (paths picked) 0 = Some path ->
  falsy (Some path) = false ->
  mountPointInvalid api s (set_world w1 (set_enabling true s)) = (Normal false, s2, tv) ->
  isVirtualDriveMounted api s2 = (Normal before, s3, tm) ->
  mounted before = false ->
  (tv = []
   \/ tv = [Native (VerifyUnixMountPath
                      (mountPoint (virtualDriveConfig (desktopConfig s))))])
  /\ exists s4 tq,
       promise_all [isMountedQuery_refetch api; availableDrivesQuery_refetch api] s3
       = (Normal tt, s4, tq)
       /\ changeMountPoint api t s
          = (Normal tt,
             set_enabling false (set_virtualDriveConfig (with_mountPoint path) s4),
             SetEnabling true :: Native (SelectDirectory false) :: tv ++
               [Native IsVirtualDriveMounted; Native IsVirtualDriveActive] ++ tq ++
               [SetDesktopConfig
                  (with_mountPoint path (virtualDriveConfig (desktopConfig s)));
                SetEnabling false]).
Proof.
  intros Hg Hp Hc Hpath Htruthy Hv Hm Hdown. split.
  - exact (mountPointInvalid_calls api _ _ _ _ _ Hv).
  - exact (changeMountPoint_persists_pick_unchecked api t s s2 s3 w1 picked path tv tm
             before Hg Hp Hc Hpath Htruthy Hv Hm Hdown).
Qed.

Lemma picked_path_is_persisted_unchecked_witness :
  let s := Sim.picking "/mnt/filen" "/not/usable" in
  desktopAPI.verifyUnixMountPath Sim.linux "/not/usable" (world s) = (Resolved false, world s)
  /\ ([Native (VerifyUnixMountPath "/mnt/filen")] = []
      \/ [Native (VerifyUnixMountPath "/mnt/filen")]
         = [Native (VerifyUnixMountPath (mountPoint (virtualDriveConfig (desktopConfig s))))])
  /\ exists s4 tq,
       promise_all
         [isMountedQuery_refetch Sim.linux; availableDrivesQuery_refetch Sim.linux]
         (set_enabling true s)
       = (Normal tt, s4, tq)
       /\ changeMountPoint Sim.linux Sim.t s
          = (Normal tt,
             set_enabling false (set_virtualDriveConfig (with_mountPoint "/not/usable") s4),
             SetEnabling true :: Native (SelectDirectory false) ::
               [Native (VerifyUnixMountPath "/mnt/filen")] ++
               [Native IsVirtualDriveMounted; Native IsVirtualDriveActive] ++ tq ++
               [SetDesktopConfig
                  (with_mountPoint "/not/usable" (virtualDriveConfig (desktopConfig s)));
                SetEnabling false]).
Proof.
  split; [reflexivity |].
  exact (picked_path_is_persisted_unchecked Sim.linux Sim.t
           (Sim.picking "/mnt/filen" "/not/usable")
           (set_enabling true (Sim.picking "/mnt/filen" "/not/usable"))
           (set_enabling true (Sim.picking "/mnt/filen" "/not/usable"))
           (world (Sim.picking "/mnt/filen" "/not/usable"))
           (mkSelectDirectoryResult false ["/not/usable"]) "/not/usable"
           [Native (VerifyUnixMountPath "/mnt/filen")]
           [Native IsVirtualDriveMounted; Native IsVirtualDriveActive]
           {| mounted := false |}
           eq_refl eq_refl eq_refl eq_refl eq_refl eq_refl eq_refl eq_refl).
Defined.

Lemma cache_select_values_round_trip_witness :
  safe_integer 250
  /\ Forall safe_integer Sim.ladder
  /\ parseInt (toString 250) = JInt 250
  /\ map parseInt (cacheSelectValues Sim.ladder) = map JInt Sim.ladder
  /\ Forall (fun value => in_step_set Sim.ladder (parseInt value) = true)
       (cacheSelectValues Sim.ladder).
Proof.
  assert (H250 : safe_integer 250) by (unfold safe_integer; lia).
  assert (Hl : Forall safe_integer Sim.ladder)
    by (unfold Sim.ladder, safe_integer; repeat constructor; lia).
  split; [exact H250 | split; [exact Hl |]].
  exact (cache_select_values_round_trip 250 Sim.ladder H250 Hl).
Defined.

Lemma refresh_listener_bypasses_guard_witness :
  let s := set_enabling true Sim.up_unseen in
  enabling s = true
  /\ isVirtualDriveMounted Sim.win32 s
     = (Normal {| mounted := true |}, s,
        [Native IsVirtualDriveMounted; Native IsVirtualDriveActive])
  /\ onRefetchVirtualDrive Sim.win32 s
     = (Normal tt,
        set_isMountedQuery (mkQueryState (Some {| mounted := true |}) true) s,
        [Refetch KIsVirtualDriveMounted;
         Native IsVirtualDriveMounted; Native IsVirtualDriveActive]).
Proof.
  split; [reflexivity | split; [reflexivity |]].
  exact (proj1 (refresh_listener_bypasses_guard Sim.win32
                  (set_enabling true Sim.up_unseen) (set_enabling true Sim.up_unseen)
                  {| mounted := true |}
                  [Native IsVirtualDriveMounted; Native IsVirtualDriveActive]
                  eq_refl)).
Defined.
